(** * recipe-explorer-api: the worker's request handlers

    A shallow embedding of [src/index.ts] (the routed worker with
    [getRecipeFromAI], [getImageFromWeb] and the [fetch] router) and of its
    earlier single-endpoint variant, together with the parts of the
    JavaScript platform the handlers call: [JSON.stringify], [JSON.parse],
    [encodeURIComponent], the [Response] constructor and object spread. *)

From Stdlib Require Import List NArith ZArith Bool String Ascii Lia.
Import ListNotations.
Open Scope N_scope.

(** ** JavaScript strings

    A JavaScript string is a sequence of UTF-16 code units. *)

Definition code_unit := N.
Definition jsstring := list code_unit.

(** A string literal of the source, one code unit per character. *)
Definition lit (s : string) : jsstring :=
  map N_of_ascii (list_ascii_of_string s).

(** The same, with every apostrophe of [s] standing for a double quote, so
    that JSON texts can be written down readably. *)
Definition qlit (s : string) : jsstring :=
  map (fun c => if c =? 39 then 34 else c) (lit s).

Fixpoint str_eqb (s t : jsstring) : bool :=
  match s, t with
  | [], [] => true
  | c :: s', d :: t' => (c =? d) && str_eqb s' t'
  | _, _ => false
  end.

Infix "===" := str_eqb (at level 70, no associativity).

(** [s] occurs in [t] as a contiguous substring. *)
Definition includes (t s : jsstring) : Prop :=
  exists pre post, t = pre ++ s ++ post.

(** Truthiness of a value of type [string | null]: [null] and the empty
    string are falsy. *)
Definition truthy (s : option jsstring) : bool :=
  match s with
  | Some (_ :: _) => true
  | _ => false
  end.

(** [Number.prototype.toString] on a non-negative integer. *)
Fixpoint digits_of_uint (d : Decimal.uint) : jsstring :=
  match d with
  | Decimal.Nil => []
  | Decimal.D0 d' => 48 :: digits_of_uint d'
  | Decimal.D1 d' => 49 :: digits_of_uint d'
  | Decimal.D2 d' => 50 :: digits_of_uint d'
  | Decimal.D3 d' => 51 :: digits_of_uint d'
  | Decimal.D4 d' => 52 :: digits_of_uint d'
  | Decimal.D5 d' => 53 :: digits_of_uint d'
  | Decimal.D6 d' => 54 :: digits_of_uint d'
  | Decimal.D7 d' => 55 :: digits_of_uint d'
  | Decimal.D8 d' => 56 :: digits_of_uint d'
  | Decimal.D9 d' => 57 :: digits_of_uint d'
  end.

Definition decimal (n : N) : jsstring := digits_of_uint (N.to_uint n).

(** ** Code-unit classes *)

Definition is_high_surrogate (c : code_unit) : bool :=
  (55296 <=? c) && (c <=? 56319).

Definition is_low_surrogate (c : code_unit) : bool :=
  (56320 <=? c) && (c <=? 57343).

(** JSON white space: tab, line feed, carriage return, space. *)
Definition is_ws (c : code_unit) : bool :=
  (c =? 9) || (c =? 10) || (c =? 13) || (c =? 32).

Definition is_digit (c : code_unit) : bool := (48 <=? c) && (c <=? 57).

Definition hex_digit (n : N) : code_unit :=
  if n <? 10 then 48 + n else 87 + n.

Definition hex_digit_upper (n : N) : code_unit :=
  if n <? 10 then 48 + n else 55 + n.

Definition hex_value (c : code_unit) : option N :=
  if is_digit c then Some (c - 48)
  else if (97 <=? c) && (c <=? 102) then Some (c - 87)
  else if (65 <=? c) && (c <=? 70) then Some (c - 55)
  else None.

(** ** [JSON.stringify]: quoting of strings (QuoteJSONString) *)

Definition unicode_escape (c : code_unit) : jsstring :=
  [92; 117; hex_digit (c / 4096 mod 16); hex_digit (c / 256 mod 16);
   hex_digit (c / 16 mod 16); hex_digit (c mod 16)].

(** One code unit that is not the first half of a surrogate pair. *)
Definition quote_unit (c : code_unit) : jsstring :=
  if c =? 8 then [92; 98]
  else if c =? 9 then [92; 116]
  else if c =? 10 then [92; 110]
  else if c =? 12 then [92; 102]
  else if c =? 13 then [92; 114]
  else if c =? 34 then [92; 34]
  else if c =? 92 then [92; 92]
  else if (c <? 32) || is_high_surrogate c || is_low_surrogate c
       then unicode_escape c
  else [c].

(** A high surrogate followed by a low one is a code point of its own and is
    copied; every other surrogate is lone and is escaped. *)
Fixpoint quote_body (s : jsstring) : jsstring :=
  match s with
  | [] => []
  | c :: rest =>
      if is_high_surrogate c then
        match rest with
        | d :: rest' =>
            if is_low_surrogate d then c :: d :: quote_body rest'
            else unicode_escape c ++ quote_body rest
        | [] => unicode_escape c
        end
      else quote_unit c ++ quote_body rest
  end.

Definition QuoteJSONString (s : jsstring) : jsstring :=
  34 :: quote_body s ++ [34].

Fixpoint join (sep : jsstring) (parts : list jsstring) : jsstring :=
  match parts with
  | [] => []
  | [p] => p
  | p :: ps => p ++ sep ++ join sep ps
  end.

(** ** Property order of ordinary objects

  An object keeps its own properties with the array-index keys first, in
  ascending numeric order, and the other string keys after them in the
  order of their creation.  Writing to an existing key keeps its place. *)

Fixpoint digits_value (acc : N) (s : jsstring) : option N :=
match s with
| [] => Some acc
| c :: s' => if is_digit c then digits_value (10 * acc + (c - 48)) s'
             else None
end.

(** The array index a key denotes: the canonical decimal form of an integer
  below 2^32 - 1. *)
Definition index_of_key (k : jsstring) : option N :=
match k with
| [] => None
| _ :: _ =>
    match digits_value 0 k with
    | Some n => if (decimal n === k) && (n <? 4294967295) then Some n
                else None
    | None => None
    end
end.

(** A new key [k] is placed before the existing key [k']. *)
Definition before (k k' : jsstring) : bool :=
match index_of_key k, index_of_key k' with
| Some n, Some n' => n <? n'
| Some _, None => true
| None, _ => false
end.

Section Properties.
Context {V : Type}.

Definition props := list (jsstring * V).

Fixpoint obj_get (k : jsstring) (o : props) : option V :=
  match o with
  | [] => None
  | (k', v) :: o' => if k === k' then Some v else obj_get k o'
  end.

Definition has_key (k : jsstring) (o : props) : bool :=
  existsb (fun kv => k === fst kv) o.

Fixpoint obj_update (k : jsstring) (v : V) (o : props) : props :=
  match o with
  | [] => []
  | (k', v') :: o' =>
      if k === k' then (k', v) :: o' else (k', v') :: obj_update k v o'
  end.

Fixpoint obj_insert (k : jsstring) (v : V) (o : props) : props :=
  match o with
  | [] => [(k, v)]
  | (k', v') :: o' =>
      if before k k' then (k, v) :: o else (k', v') :: obj_insert k v o'
  end.

(** CreateDataProperty on an ordinary object. *)
Definition obj_set (k : jsstring) (v : V) (o : props) : props :=
  if has_key k o then obj_update k v o else obj_insert k v o.

(** The object an object literal or a run of property writes builds. *)
Definition obj_of_list (kvs : props) : props :=
  fold_left (fun o kv => obj_set (fst kv) (snd kv) o) kvs [].
End Properties.

Arguments props : clear implicits.

(** ** The worker, over the JavaScript platform it runs on *)

(** What the JavaScript engine provides.  Numbers are IEEE doubles: the
    handlers never compute with them, they can only pass through
    [JSON.parse] and [JSON.stringify], whose conversions are the engine's.
    The [message] of the engine's own errors is the engine's too: of the
    SyntaxError [JSON.parse] raises on a text, of the TypeError raised by
    reading a property of [undefined], and of the URIError of
    [encodeURIComponent]. *)
Class Engine : Type := {
  Num : Type;
  StringToNumber : jsstring -> Num;
  NumberToString : Num -> jsstring;
  isFinite : Num -> bool;
  syntaxErrorMessage : jsstring -> jsstring;
  typeErrorMessage : jsstring;
  uriErrorMessage : jsstring
}.

Section Worker.
Context {engine : Engine}.

(** *** JSON values *)

Unset Elimination Schemes.
Inductive JValue : Type :=
| JNull
| JBool (b : bool)
| JNumber (n : Num)
| JString (s : jsstring)
| JArray (elements : list JValue)
| JObject (members : list (jsstring * JValue)).
Set Elimination Schemes.

Section JValueInduction.
Variable P : JValue -> Prop.
Hypothesis Hnull : P JNull.
Hypothesis Hbool : forall b, P (JBool b).
Hypothesis Hnumber : forall n, P (JNumber n).
Hypothesis Hstring : forall s, P (JString s).
Hypothesis Harray : forall vs, Forall P vs -> P (JArray vs).
Hypothesis Hobject :
  forall kvs, Forall (fun kv => P (snd kv)) kvs -> P (JObject kvs).

Fixpoint JValue_ind (v : JValue) : P v :=
  match v with
  | JNull => Hnull
  | JBool b => Hbool b
  | JNumber n => Hnumber n
  | JString s => Hstring s
  | JArray vs =>
      Harray vs
        ((fix elements (l : list JValue) : Forall P l :=
            match l with
            | [] => Forall_nil P
            | x :: l' => Forall_cons x (JValue_ind x) (elements l')
            end) vs)
  | JObject kvs =>
      Hobject kvs
        ((fix members (l : list (jsstring * JValue))
            : Forall (fun kv => P (snd kv)) l :=
            match l with
            | [] => Forall_nil _
            | kv :: l' =>
                Forall_cons kv (JValue_ind (snd kv)) (members l')
            end) kvs)
  end.
End JValueInduction.

(** *** Thrown values and fallible computations *)

(** A thrown value is an [Error] instance, of which the handlers use the
    [message] only, or any other value. *)
Inductive Thrown : Type :=
| ThrownError (message : jsstring)
| ThrownValue (v : JValue).

Inductive Outcome (A : Type) : Type :=
| Returns (a : A)
| Throws (e : Thrown).
Arguments Returns {A} a.
Arguments Throws {A} e.

Definition bind {A B} (m : Outcome A) (k : A -> Outcome B) : Outcome B :=
  match m with
  | Returns a => k a
  | Throws e => Throws e
  end.

(** [try { body } catch (e) { handler }] *)
Definition try_catch {A} (body : Outcome A) (handler : Thrown -> Outcome A)
  : Outcome A :=
  match body with
  | Returns a => Returns a
  | Throws e => handler e
  end.

Notation "x <- m ;; k" := (bind m (fun x => k))
  (at level 61, m at next level, right associativity).

(** *** [JSON.stringify] (SerializeJSONProperty)

    [gap] is the indentation unit and [indent] the current indentation.  *)

Definition is_empty (s : jsstring) : bool :=
  match s with [] => true | _ :: _ => false end.

Definition wrap (opening closing : code_unit) (gap indent stepback : jsstring)
    (partial : list jsstring) : jsstring :=
  match partial with
  | [] => [opening; closing]
  | _ :: _ =>
      if is_empty gap then
        [opening] ++ join [44] partial ++ [closing]
      else
        [opening] ++ [10] ++ indent
          ++ join ([44; 10] ++ indent) partial
          ++ [10] ++ stepback ++ [closing]
  end.

Definition colon (gap : jsstring) : jsstring :=
  if is_empty gap then [58] else [58; 32].

Fixpoint SerializeJSONProperty (gap indent : jsstring) (v : JValue)
  : jsstring :=
  match v with
  | JNull => lit "null"
  | JBool true => lit "true"
  | JBool false => lit "false"
  | JNumber n => if isFinite n then NumberToString n else lit "null"
  | JString s => QuoteJSONString s
  | JArray vs =>
      wrap 91 93 gap (indent ++ gap) indent
        (map (SerializeJSONProperty gap (indent ++ gap)) vs)
  | JObject kvs =>
      wrap 123 125 gap (indent ++ gap) indent
        (map (fun kv =>
                QuoteJSONString (fst kv) ++ colon gap
                  ++ SerializeJSONProperty gap (indent ++ gap) (snd kv))
             kvs)
  end.

(** [JSON.stringify(value, null, space)] for a numeric [space]; the call
    with one argument is [space = 0]. *)
Definition JSON_stringify (space : nat) (v : JValue) : jsstring :=
  SerializeJSONProperty (repeat 32 (Nat.min 10 space)) [] v.

(** An object literal [{ k1: v1, ..., kn: vn }]. *)
Definition object_literal (kvs : list (jsstring * JValue)) : JValue :=
  JObject (obj_of_list kvs).

(** *** [JSON.parse]

    The parser reads the text one code unit at a time, with an explicit
    stack of the arrays and objects that are still open. *)

Inductive Frame : Type :=
| FArray (elements : list JValue)        (* most recent element first *)
| FObject (members : props JValue)
| FMember (members : props JValue) (key : jsstring).

Inductive Mode : Type :=
| MValue                                  (* a value must follow *)
| MArrayStart                             (* after [ *)
| MObjectStart                            (* after { *)
| MKey                                    (* after , in an object *)
| MColon                                  (* after a member's key *)
| MAfter                                  (* after a value in a container *)
| MString (is_key : bool) (acc : jsstring)
| MEscape (is_key : bool) (acc : jsstring)
| MUnicode (is_key : bool) (acc : jsstring) (count : nat) (value : N)
| MAtom (acc : jsstring)                  (* inside a number or literal *)
| MEnd (v : JValue).                      (* the top-level value is read *)

Definition State : Type := list Frame * Mode.

Fixpoint skip_digits (s : jsstring) : jsstring :=
  match s with
  | c :: s' => if is_digit c then skip_digits s' else s
  | [] => []
  end.

Definition number_int (s : jsstring) : option jsstring :=
  match s with
  | c :: s' =>
      if c =? 48 then Some s'
      else if is_digit c then Some (skip_digits s')
      else None
  | [] => None
  end.

Definition number_frac (s : jsstring) : option jsstring :=
  match s with
  | c :: s' =>
      if c =? 46 then
        match s' with
        | d :: s'' => if is_digit d then Some (skip_digits s'') else None
        | [] => None
        end
      else Some s
  | [] => Some s
  end.

Definition number_exp (s : jsstring) : option jsstring :=
  match s with
  | c :: s' =>
      if (c =? 101) || (c =? 69) then
        let s'' :=
          match s' with
          | d :: t => if (d =? 43) || (d =? 45) then t else s'
          | [] => s'
          end in
        match s'' with
        | d :: t => if is_digit d then Some (skip_digits t) else None
        | [] => None
        end
      else Some s
  | [] => Some s
  end.

(** The JSON number grammar: [-? int frac? exp?]. *)
Definition is_json_number (s : jsstring) : bool :=
  let unsigned :=
    match s with
    | c :: s' => if c =? 45 then s' else s
    | [] => s
    end in
  match number_int unsigned with
  | Some s1 =>
      match number_frac s1 with
      | Some s2 =>
          match number_exp s2 with
          | Some [] => true
          | _ => false
          end
      | None => false
      end
  | None => false
  end.

Definition atom_value (lexeme : jsstring) : option JValue :=
  if lexeme === lit "null" then Some JNull
  else if lexeme === lit "true" then Some (JBool true)
  else if lexeme === lit "false" then Some (JBool false)
  else if is_json_number lexeme then Some (JNumber (StringToNumber lexeme))
  else None.

(** A number or literal ends before white space, a comma or a closing
    bracket, or at the end of the text. *)
Definition is_delim (c : code_unit) : bool :=
  is_ws c || (c =? 44) || (c =? 93) || (c =? 125).

(** A complete value goes to the innermost open container. *)
Definition deliver (v : JValue) (stack : list Frame) : option State :=
  match stack with
  | [] => Some ([], MEnd v)
  | FArray es :: stack' => Some (FArray (v :: es) :: stack', MAfter)
  | FMember ps k :: stack' => Some (FObject (obj_set k v ps) :: stack', MAfter)
  | FObject _ :: _ => None
  end.

Definition start_value (stack : list Frame) (c : code_unit) : option State :=
  if c =? 34 then Some (stack, MString false [])
  else if c =? 91 then Some (FArray [] :: stack, MArrayStart)
  else if c =? 123 then Some (FObject [] :: stack, MObjectStart)
  else if (c =? 45) || is_digit c || (c =? 116) || (c =? 102) || (c =? 110)
  then Some (stack, MAtom [c])
  else None.

Definition close_array (stack : list Frame) : option State :=
  match stack with
  | FArray es :: stack' => deliver (JArray (rev es)) stack'
  | _ => None
  end.

Definition close_object (stack : list Frame) : option State :=
  match stack with
  | FObject ps :: stack' => deliver (JObject ps) stack'
  | _ => None
  end.

Definition string_done (is_key : bool) (acc : jsstring) (stack : list Frame)
  : option State :=
  if is_key then
    match stack with
    | FObject ps :: stack' => Some (FMember ps (rev acc) :: stack', MColon)
    | _ => None
    end
  else deliver (JString (rev acc)) stack.

Definition unescape (c : code_unit) : option code_unit :=
  if c =? 34 then Some 34
  else if c =? 92 then Some 92
  else if c =? 47 then Some 47
  else if c =? 98 then Some 8
  else if c =? 102 then Some 12
  else if c =? 110 then Some 10
  else if c =? 114 then Some 13
  else if c =? 116 then Some 9
  else None.

(** A step after a complete value. *)
Definition step_after (stack : list Frame) (m : Mode) (c : code_unit)
  : option State :=
  match m with
  | MAfter =>
      if is_ws c then Some (stack, MAfter)
      else if c =? 44 then
        match stack with
        | FArray _ :: _ => Some (stack, MValue)
        | FObject _ :: _ => Some (stack, MKey)
        | _ => None
        end
      else if c =? 93 then close_array stack
      else if c =? 125 then close_object stack
      else None
  | MEnd v => if is_ws c then Some (stack, MEnd v) else None
  | _ => None
  end.

Definition step (st : State) (c : code_unit) : option State :=
  let (stack, m) := st in
  match m with
  | MValue =>
      if is_ws c then Some st else start_value stack c
  | MArrayStart =>
      if is_ws c then Some st
      else if c =? 93 then close_array stack
      else start_value stack c
  | MObjectStart =>
      if is_ws c then Some st
      else if c =? 34 then Some (stack, MString true [])
      else if c =? 125 then close_object stack
      else None
  | MKey =>
      if is_ws c then Some st
      else if c =? 34 then Some (stack, MString true [])
      else None
  | MColon =>
      if is_ws c then Some st
      else if c =? 58 then Some (stack, MValue)
      else None
  | MAfter | MEnd _ => step_after stack m c
  | MString k acc =>
      if c =? 34 then string_done k acc stack
      else if c =? 92 then Some (stack, MEscape k acc)
      else if c <? 32 then None
      else Some (stack, MString k (c :: acc))
  | MEscape k acc =>
      if c =? 117 then Some (stack, MUnicode k acc 0 0)
      else
        match unescape c with
        | Some u => Some (stack, MString k (u :: acc))
        | None => None
        end
  | MUnicode k acc n v =>
      match hex_value c with
      | Some d =>
          if Nat.eqb n 3 then Some (stack, MString k ((16 * v + d) :: acc))
          else Some (stack, MUnicode k acc (S n) (16 * v + d))
      | None => None
      end
  | MAtom acc =>
      if is_delim c then
        match atom_value (rev acc) with
        | Some v =>
            match deliver v stack with
            | Some (stack', m') => step_after stack' m' c
            | None => None
            end
        | None => None
        end
      else Some (stack, MAtom (c :: acc))
  end.

Fixpoint run (st : State) (text : jsstring) : option State :=
  match text with
  | [] => Some st
  | c :: text' =>
      match step st c with
      | Some st' => run st' text'
      | None => None
      end
  end.

Definition finish (st : State) : option JValue :=
  match st with
  | ([], MEnd v) => Some v
  | ([], MAtom acc) => atom_value (rev acc)
  | _ => None
  end.

Definition JSON_parse (text : jsstring) : Outcome JValue :=
  match run ([], MValue) text with
  | Some st =>
      match finish st with
      | Some v => Returns v
      | None => Throws (ThrownError (syntaxErrorMessage text))
      end
  | None => Throws (ThrownError (syntaxErrorMessage text))
  end.

(** *** Responses, headers and object spread *)

Definition lower (c : code_unit) : code_unit :=
  if (65 <=? c) && (c <=? 90) then c + 32 else c.

Definition lowercase (s : jsstring) : jsstring := map lower s.

(** A [Headers] instance holds a header list, names in lower case.  The
    list is internal to the instance: it has no own properties. *)
Definition Headers : Type := list (jsstring * jsstring).

Definition new_Headers (init : props jsstring) : Headers :=
  map (fun kv => (lowercase (fst kv), snd kv)) init.

(** [headers.get(name)]: the values under [name], joined by a comma and a
    space, or [null]. *)
Definition headers_get (h : Headers) (name : jsstring) : option jsstring :=
  match filter (fun kv => lowercase name === fst kv) h with
  | [] => None
  | found => Some (join [44; 32] (map snd found))
  end.

(** The body handed to the [Response] constructor: a string, or the stream
    of another response's body. *)
Inductive BodyInit : Type :=
| BodyString (text : jsstring)
| BodyStream (text : jsstring).

Record ResponseInit : Type := {
  init_status : option N;
  init_headers : props jsstring
}.

Record Response : Type := {
  status : N;
  headers : Headers;
  body : jsstring
}.

(** [new Response(body, init)]: the status defaults to 200, and a string
    body brings its own content type when the headers name none. *)
Definition new_Response (b : BodyInit) (init : ResponseInit) : Response :=
  let h := new_Headers (init_headers init) in
  {| status := match init_status init with Some s => s | None => 200 end;
     headers :=
       match b with
       | BodyString _ =>
           match headers_get h (lit "Content-Type") with
           | Some _ => h
           | None =>
               h ++ [(lit "content-type", lit "text/plain;charset=UTF-8")]
           end
       | BodyStream _ => h
       end;
     body := match b with BodyString t | BodyStream t => t end |}.

(** What an object literal can spread: a plain object, or a [Headers]
    instance. *)
Inductive SpreadSource : Type :=
| PlainObject (o : props jsstring)
| HeadersInstance (h : Headers).

(** Spread copies the own enumerable properties of its source
    (CopyDataProperties); it does not iterate.  The entries of a [Headers]
    instance are reached through its methods and its iterator only: the
    instance has no own enumerable property, and spread copies nothing
    from it. *)
Definition own_enumerable_properties (src : SpreadSource) : props jsstring :=
  match src with
  | PlainObject o => o
  | HeadersInstance _ => []
  end.

(** [{ ...a, ...b }] *)
Definition object_spread (sources : list SpreadSource) : props jsstring :=
  fold_left
    (fun o src =>
       fold_left (fun o' kv => obj_set (fst kv) (snd kv) o')
                 (own_enumerable_properties src) o)
    sources [].

(** *** Requests *)

(** A parsed request URL: [new URL(request.url)]. *)
Record URL : Type := {
  pathname : jsstring;
  searchParams : list (jsstring * jsstring)
}.

(** [url.searchParams.get(name)]: the first value under [name], or
    [null]. *)
Definition searchParams_get (u : URL) (name : jsstring) : option jsstring :=
  obj_get name (searchParams u).

Record Request : Type := {
  method : jsstring;
  url : URL
}.

Record Env : Type := {
  GITHUB_TOKEN : jsstring;
  GOOGLE_API_KEY : jsstring;
  GOOGLE_CSE_ID : jsstring
}.

(** *** [encodeURIComponent] *)

Definition is_unreserved (c : code_unit) : bool :=
  ((65 <=? c) && (c <=? 90)) || ((97 <=? c) && (c <=? 122)) || is_digit c
  || existsb (N.eqb c) (lit "-_.!~*'()").

Definition percent (byte : N) : jsstring :=
  [37; hex_digit_upper (byte / 16); hex_digit_upper (byte mod 16)].

Definition utf8 (cp : N) : list N :=
  if cp <? 128 then [cp]
  else if cp <? 2048 then [192 + cp / 64; 128 + cp mod 64]
  else if cp <? 65536 then
    [224 + cp / 4096; 128 + cp / 64 mod 64; 128 + cp mod 64]
  else
    [240 + cp / 262144; 128 + cp / 4096 mod 64; 128 + cp / 64 mod 64;
     128 + cp mod 64].

Definition percent_encode (cp : N) : jsstring :=
  List.concat (map percent (utf8 cp)).

Fixpoint encode (s : jsstring) : option jsstring :=
  match s with
  | [] => Some []
  | c :: rest =>
      if is_unreserved c then option_map (cons c) (encode rest)
      else if is_low_surrogate c then None
      else if is_high_surrogate c then
        match rest with
        | d :: rest' =>
            if is_low_surrogate d then
              option_map
                (app (percent_encode
                        (65536 + (c - 55296) * 1024 + (d - 56320))))
                (encode rest')
            else None
        | [] => None
        end
      else option_map (app (percent_encode c)) (encode rest)
  end.

(** A lone surrogate makes [encodeURIComponent] throw a URIError. *)
Definition encodeURIComponent (s : jsstring) : Outcome jsstring :=
  match encode s with
  | Some e => Returns e
  | None => Throws (ThrownError uriErrorMessage)
  end.

(** *** The services the worker calls *)

(** The completion service, at the types of the [openai] package. *)
Record ChatCompletionMessage : Type := {
  refusal : option jsstring;
  content : option jsstring
}.

Record Choice : Type := {
  finish_reason : jsstring;
  message : ChatCompletionMessage
}.

Record ChatCompletion : Type := {
  choices : list Choice
}.

Record ChatCompletionCreateParams : Type := {
  response_format : JValue;
  store : bool;
  messages : list (jsstring * jsstring);   (* role, content *)
  model : jsstring;
  temperature : N;
  max_tokens : N;
  top_p : N
}.

(** A client: what [openai.chat.completions.create] answers, or throws. *)
Record OpenAI : Type := {
  chat_completions_create :
    ChatCompletionCreateParams -> Outcome ChatCompletion
}.

(** The image search, at the type the source gives its answer
    ([GoogleSearchResponse]). *)
Record Image : Type := {
  thumbnailLink : jsstring
}.

Record Item : Type := {
  link : jsstring;
  image : Image
}.

Record GoogleSearchResponse : Type := {
  items : option (list Item)
}.

(** The response of [node-fetch]: its status, and what [response.json()]
    gives or throws. *)
Record UpstreamResponse : Type := {
  upstream_status : N;
  json : Outcome GoogleSearchResponse
}.

Definition ok (r : UpstreamResponse) : bool :=
  (200 <=? upstream_status r) && (upstream_status r <? 300).

(** The services behind the worker: [new OpenAI({ baseURL, apiKey })],
    which gives a client or throws (the constructor rejects credentials it
    cannot use, an empty key among them), and [fetch(url)] of
    [node-fetch]. *)
Class Services : Type := {
  new_OpenAI : jsstring -> jsstring -> Outcome OpenAI;
  node_fetch : jsstring -> Outcome UpstreamResponse
}.

Context {services : Services}.

(** *** The schema constant *)

Definition str (s : string) : JValue := JString (lit s).

Definition obj (kvs : list (string * JValue)) : JValue :=
  object_literal (map (fun kv => (lit (fst kv), snd kv)) kvs).

Local Open Scope string_scope.

Definition described (type description : string) : JValue :=
  obj [("type", str type); ("description", str description)].

Definition schema : JValue :=
  obj [
    ("name", str "recipe");
    ("schema", obj [
      ("type", str "object");
      ("properties", obj [
        ("name", described "string" "The name of the recipe.");
        ("description",
          described "string" "A brief description of the recipe.");
        ("ingredients", obj [
          ("type", str "array");
          ("description", str "A list of ingredients for the recipe.");
          ("items", obj [
            ("type", str "object");
            ("properties", obj [
              ("name",
                described "string" "The name of the ingredient.");
              ("amount",
                described "string"
                  "The amount of the ingredient required.");
              ("description",
                described "string" "A description of the ingredient.")
            ]);
            ("required",
              JArray [str "name"; str "amount"; str "description"]);
            ("additionalProperties", JBool false)
          ])
        ]);
        ("instructions", obj [
          ("type", str "array");
          ("description",
            str "Step-by-step instructions to prepare the recipe.");
          ("items",
            described "string"
              "A single step in the recipe's preparation.")
        ])
      ]);
      ("required",
        JArray [str "name"; str "description"; str "ingredients";
                str "instructions"]);
      ("additionalProperties", JBool false)
    ]);
    ("strict", JBool true)
  ].

(** The schema of the single-endpoint variant of the worker. *)
Definition single_schema : JValue :=
  obj [
    ("name", str "recipe");
    ("schema", obj [
      ("type", str "object");
      ("properties", obj [
        ("name", described "string" "The name of the recipe.");
        ("imgUrl", described "string" "The URL of the recipe image.");
        ("description",
          described "string" "A brief description of the recipe.");
        ("ingredients", obj [
          ("type", str "array");
          ("description", str "A list of ingredients for the recipe.");
          ("items", obj [
            ("type", str "object");
            ("properties", obj [
              ("name",
                described "string" "The name of the ingredient.");
              ("imgUrl",
                described "string" "The URL of the ingredient image.");
              ("amount",
                described "string"
                  "The amount of the ingredient required.");
              ("description",
                described "string" "A description of the ingredient.")
            ]);
            ("required",
              JArray [str "name"; str "imgUrl"; str "amount";
                      str "description"]);
            ("additionalProperties", JBool false)
          ])
        ]);
        ("instructions",
          described "string"
            "The instructions for preparing the recipe.")
      ]);
      ("required",
        JArray [str "name"; str "imgUrl"; str "description";
                str "ingredients"; str "instructions"]);
      ("additionalProperties", JBool false)
    ]);
    ("strict", JBool true)
  ].

Local Close Scope string_scope.

(** *** The handlers *)

Definition json_content_type : props jsstring :=
  obj_of_list [(lit "Content-Type", lit "application/json")].

(** [e instanceof Error ? e.message : 'An unknown error occurred'] *)
Definition error_message (e : Thrown) : jsstring :=
  match e with
  | ThrownError m => m
  | ThrownValue _ => lit "An unknown error occurred"
  end.

(** [{ error: message }] *)
Definition error_object (message : jsstring) : JValue :=
  object_literal [(lit "error", JString message)].

(** The [catch] block both handlers share. *)
Definition error_response (e : Thrown) : Response :=
  new_Response
    (BodyString (JSON_stringify 2 (error_object (error_message e))))
    {| init_status := None; init_headers := json_content_type |}.

(** The argument of [openai.chat.completions.create]. *)
Definition recipe_request (foodName : jsstring)
  : ChatCompletionCreateParams :=
  {| response_format :=
       object_literal [(lit "type", str "json_schema");
                       (lit "json_schema", schema)];
     store := true;
     messages :=
       [(lit "system",
         lit "please give me a promising recipe, it can be from famous chefs. it should be detailed with all tips and tricks.");
        (lit "user", lit "recipe of " ++ foodName)];
     model := lit "gpt-4o";
     temperature := 1;
     max_tokens := 4096;
     top_p := 1 |}.

Definition getRecipeFromAI (openai : OpenAI) (foodName : option jsstring)
  : Outcome Response :=
  match foodName with
  | None | Some [] =>
      Returns
        (new_Response
           (BodyString
              (JSON_stringify 0
                 (error_object (lit "foodName parameter is required"))))
           {| init_status := Some 400; init_headers := json_content_type |})
  | Some foodName =>
      try_catch
        (chatCompletion <-
           chat_completions_create openai (recipe_request foodName) ;;
         match choices chatCompletion with
         | [] => Throws (ThrownError typeErrorMessage)
         | choice0 :: _ =>
             if finish_reason choice0 === lit "length" then
               Throws (ThrownError (lit "Incomplete response"))
             else
               let recipeResponse := message choice0 in
               if truthy (refusal recipeResponse) then
                 Throws (ThrownError (lit "Model refused to provide a recipe"))
               else
                 match content recipeResponse with
                 | None | Some [] =>
                     Throws (ThrownError (lit "No response content"))
                 | Some text =>
                     parsed <- JSON_parse text ;;
                     Returns
                       (new_Response
                          (BodyString (JSON_stringify 2 parsed))
                          {| init_status := None;
                             init_headers := json_content_type |})
                 end
         end)
        (fun e => Returns (error_response e))
  end.

(** The address [getImageFromWeb] fetches, for an encoded query. *)
Definition search_url (env : Env) (query : jsstring) : jsstring :=
  lit "https://www.googleapis.com/customsearch/v1?key="
    ++ GOOGLE_API_KEY env ++ lit "&cx=" ++ GOOGLE_CSE_ID env
    ++ lit "&q=" ++ query ++ lit "&searchType=image".

Definition getImageFromWeb (foodOrIngName : option jsstring) (env : Env)
  : Outcome Response :=
  match foodOrIngName with
  | None | Some [] =>
      Returns
        (new_Response
           (BodyString
              (JSON_stringify 0
                 (error_object (lit "foodOrIngName parameter is required"))))
           {| init_status := Some 400; init_headers := json_content_type |})
  | Some foodOrIngName =>
      try_catch
        (query <- encodeURIComponent foodOrIngName ;;
         response <- node_fetch (search_url env query) ;;
         if negb (ok response) then
           Throws
             (ThrownError
                (lit "Google API error: "
                   ++ decimal (upstream_status response)))
         else
           data <- json response ;;
           match items data with
           | None | Some [] =>
               Throws (ThrownError (lit "No results found on Google"))
           | Some (first :: _) =>
               Returns
                 (new_Response
                    (BodyString
                       (JSON_stringify 2
                          (object_literal
                             [(lit "url", JString (link first));
                              (lit "thumb",
                               JString (thumbnailLink (image first)))])))
                    {| init_status := None;
                       init_headers := json_content_type |})
           end)
        (fun e => Returns (error_response e))
  end.

(** *** The router *)

Definition corsHeaders : props jsstring :=
  obj_of_list
    [(lit "Access-Control-Allow-Origin", lit "*");
     (lit "Access-Control-Allow-Methods", lit "GET,HEAD,POST,OPTIONS");
     (lit "Access-Control-Allow-Headers", lit "Content-Type")].

(** [new Response(response.body, { headers: { ...corsHeaders,
    ...response.headers } })] *)
Definition rewrap (response : Response) : Response :=
  new_Response (BodyStream (body response))
    {| init_status := None;
       init_headers :=
         object_spread
           [PlainObject corsHeaders; HeadersInstance (headers response)] |}.

(** [new OpenAI({ baseURL: ..., apiKey: env.GITHUB_TOKEN })] *)
Definition new_client (env : Env) : Outcome OpenAI :=
  new_OpenAI (lit "https://models.inference.ai.azure.com") (GITHUB_TOKEN env).

Definition fetch (request : Request) (env : Env) : Outcome Response :=
  let url := url request in
  if pathname url === lit "/getRecipe" then
    openai <- new_client env ;;
    let foodName := searchParams_get url (lit "foodName") in
    response <- getRecipeFromAI openai foodName ;;
    Returns (rewrap response)
  else if pathname url === lit "/getImage" then
    let foodOrIngName := searchParams_get url (lit "foodOrIngName") in
    response <- getImageFromWeb foodOrIngName env ;;
    Returns (rewrap response)
  else
    Returns
      (new_Response (BodyString (lit "Not found"))
         {| init_status := Some 404; init_headers := corsHeaders |}).

(** *** The single-endpoint variant of the worker *)

Definition single_recipe_request (recipeName : jsstring)
  : ChatCompletionCreateParams :=
  {| response_format :=
       object_literal [(lit "type", str "json_schema");
                       (lit "json_schema", single_schema)];
     store := true;
     messages :=
       [(lit "system",
         lit "you are a professional chef. please give me promising recipes. ");
        (lit "user", lit "recipe of " ++ recipeName)];
     model := lit "gpt-4o";
     temperature := 1;
     max_tokens := 4096;
     top_p := 1 |}.

Definition single_getRecipeFromAI (openai : OpenAI) (recipeName : jsstring)
  : Outcome JValue :=
  try_catch
    (chatCompletion <-
       chat_completions_create openai (single_recipe_request recipeName) ;;
     match choices chatCompletion with
     | [] => Throws (ThrownError typeErrorMessage)
     | choice0 :: _ =>
         if finish_reason choice0 === lit "length" then
           Throws (ThrownError (lit "Incomplete response"))
         else
           let recipeResponse := message choice0 in
           if truthy (refusal recipeResponse) then
             Throws (ThrownError (lit "Model refused to provide a recipe"))
           else
             match content recipeResponse with
             | None | Some [] =>
                 Throws (ThrownError (lit "No response content"))
             | Some text => JSON_parse text
             end
     end)
    (fun e => Returns (error_object (error_message e))).

Definition single_fetch (request : Request) (env : Env) : Outcome Response :=
  openai <- new_client env ;;
  let url := url request in
  match searchParams_get url (lit "foodName") with
  | None | Some [] =>
      Returns
        (new_Response
           (BodyString
              (JSON_stringify 0
                 (error_object (lit "foodName parameter is required"))))
           {| init_status := Some 400; init_headers := json_content_type |})
  | Some foodName =>
      recipe <- single_getRecipeFromAI openai foodName ;;
      Returns
        (new_Response (BodyString (JSON_stringify 2 recipe))
           {| init_status := None; init_headers := json_content_type |})
  end.

(** *** The Recipe shape *)

(** [v.k] on a JSON value: the own property of an object. *)
Definition member (k : jsstring) (v : JValue) : option JValue :=
  match v with
  | JObject kvs => obj_get k kvs
  | _ => None
  end.

Definition schema_type (s : JValue) : jsstring :=
  match member (lit "type") s with
  | Some (JString t) => t
  | _ => []
  end.

(** Validation against a schema, for the keywords the schema constants
    use: [type], [properties], [required], [additionalProperties] and
    [items]. *)
Fixpoint conforms (s : JValue) (v : JValue) {struct v} : bool :=
  match v with
  | JNull => schema_type s === lit "null"
  | JBool _ => schema_type s === lit "boolean"
  | JNumber _ => schema_type s === lit "number"
  | JString _ => schema_type s === lit "string"
  | JArray vs =>
      (schema_type s === lit "array")
      && match member (lit "items") s with
         | Some item => forallb (conforms item) vs
         | None => true
         end
  | JObject kvs =>
      (schema_type s === lit "object")
      && forallb (fun r => match r with
                           | JString k => has_key k kvs
                           | _ => true
                           end)
           match member (lit "required") s with
           | Some (JArray rs) => rs
           | _ => []
           end
      && forallb (fun kv =>
                    match member (lit "properties") s with
                    | Some (JObject ps) =>
                        match obj_get (fst kv) ps with
                        | Some p => conforms p (snd kv)
                        | None =>
                            match member (lit "additionalProperties") s with
                            | Some (JBool false) => false
                            | _ => true
                            end
                        end
                    | _ => true
                    end) kvs
  end.

(** The shape the completion service is held to: [schema.schema]. *)
Definition recipe_schema : JValue :=
  match member (lit "schema") schema with
  | Some s => s
  | None => JNull
  end.

Record Ingredient : Type := {
  ingredient_name : jsstring;
  amount : jsstring;
  ingredient_description : jsstring
}.

Record Recipe : Type := {
  recipe_name : jsstring;
  recipe_description : jsstring;
  ingredients : list Ingredient;
  instructions : list jsstring
}.

Definition json_of_ingredient (i : Ingredient) : JValue :=
  JObject [(lit "name", JString (ingredient_name i));
           (lit "amount", JString (amount i));
           (lit "description", JString (ingredient_description i))].

Definition json_of_recipe (r : Recipe) : JValue :=
  JObject [(lit "name", JString (recipe_name r));
           (lit "description", JString (recipe_description r));
           (lit "ingredients", JArray (map json_of_ingredient (ingredients r)));
           (lit "instructions", JArray (map JString (instructions r)))].

Definition string_of_json (v : JValue) : option jsstring :=
  match v with
  | JString s => Some s
  | _ => None
  end.

Definition string_member (k : string) (v : JValue) : option jsstring :=
  match member (lit k) v with
  | Some x => string_of_json x
  | None => None
  end.

Fixpoint traverse {A B} (f : A -> option B) (l : list A) : option (list B) :=
  match l with
  | [] => Some []
  | x :: l' =>
      match f x, traverse f l' with
      | Some y, Some ys => Some (y :: ys)
      | _, _ => None
      end
  end.

Definition ingredient_of_json (v : JValue) : option Ingredient :=
  match string_member "name" v, string_member "amount" v,
        string_member "description" v with
  | Some n, Some a, Some d =>
      Some {| ingredient_name := n; amount := a;
              ingredient_description := d |}
  | _, _, _ => None
  end.

Definition recipe_of_json (v : JValue) : option Recipe :=
  match string_member "name" v, string_member "description" v,
        member (lit "ingredients") v, member (lit "instructions") v with
  | Some n, Some d, Some (JArray xs), Some (JArray ss) =>
      match traverse ingredient_of_json xs, traverse string_of_json ss with
      | Some xs', Some ss' =>
          Some {| recipe_name := n; recipe_description := d;
                  ingredients := xs'; instructions := ss' |}
      | _, _ => None
      end
  | _, _, _, _ => None
  end.

(** *** Predicates of the statements *)

(** The keys of an object as the property order leaves them: no key
    twice, and no key that would have to stand before an earlier one. *)
Inductive key_order : list jsstring -> Prop :=
| key_order_nil : key_order []
| key_order_cons k ks :
    ~ In k ks ->
    Forall (fun k' => before k' k = false) ks ->
    key_order ks ->
    key_order (k :: ks).

Unset Elimination Schemes.

(** A JSON value all of whose objects are in property order: the values
    JavaScript can hold. *)
Inductive normal : JValue -> Prop :=
| normal_null : normal JNull
| normal_bool b : normal (JBool b)
| normal_number n : normal (JNumber n)
| normal_string s : normal (JString s)
| normal_array vs : Forall normal vs -> normal (JArray vs)
| normal_object kvs :
    key_order (map fst kvs) ->
    Forall (fun kv => normal (snd kv)) kvs ->
    normal (JObject kvs).

Inductive number_free : JValue -> Prop :=
| number_free_null : number_free JNull
| number_free_bool b : number_free (JBool b)
| number_free_string s : number_free (JString s)
| number_free_array vs : Forall number_free vs -> number_free (JArray vs)
| number_free_object kvs :
    Forall (fun kv => number_free (snd kv)) kvs ->
    number_free (JObject kvs).

(** A schema that admits strings, arrays and closed objects only. *)
Inductive textual_schema : JValue -> Prop :=
| textual_string s :
    schema_type s = lit "string" -> textual_schema s
| textual_array s item :
    schema_type s = lit "array" ->
    member (lit "items") s = Some item ->
    textual_schema item ->
    textual_schema s
| textual_object s ps :
    schema_type s = lit "object" ->
    member (lit "properties") s = Some (JObject ps) ->
    member (lit "additionalProperties") s = Some (JBool false) ->
    Forall (fun kv => textual_schema (snd kv)) ps ->
    textual_schema s.

Set Elimination Schemes.

(** The ways the [try] block of [getRecipeFromAI] ends in a throw, with
    the value thrown. *)
Inductive recipe_failure (openai : OpenAI) (foodName : jsstring)
  : Thrown -> Prop :=
| recipe_call_throws e :
    chat_completions_create openai (recipe_request foodName) = Throws e ->
    recipe_failure openai foodName e
| recipe_no_choice completion :
    chat_completions_create openai (recipe_request foodName)
      = Returns completion ->
    choices completion = [] ->
    recipe_failure openai foodName (ThrownError typeErrorMessage)
| recipe_truncated completion choice rest :
    chat_completions_create openai (recipe_request foodName)
      = Returns completion ->
    choices completion = choice :: rest ->
    finish_reason choice = lit "length" ->
    recipe_failure openai foodName (ThrownError (lit "Incomplete response"))
| recipe_refused completion choice rest :
    chat_completions_create openai (recipe_request foodName)
      = Returns completion ->
    choices completion = choice :: rest ->
    finish_reason choice <> lit "length" ->
    truthy (refusal (message choice)) = true ->
    recipe_failure openai foodName
      (ThrownError (lit "Model refused to provide a recipe"))
| recipe_no_content completion choice rest :
    chat_completions_create openai (recipe_request foodName)
      = Returns completion ->
    choices completion = choice :: rest ->
    finish_reason choice <> lit "length" ->
    truthy (refusal (message choice)) = false ->
    truthy (content (message choice)) = false ->
    recipe_failure openai foodName (ThrownError (lit "No response content"))
| recipe_parse_throws completion choice rest text e :
    chat_completions_create openai (recipe_request foodName)
      = Returns completion ->
    choices completion = choice :: rest ->
    finish_reason choice <> lit "length" ->
    truthy (refusal (message choice)) = false ->
    content (message choice) = Some text ->
    text <> [] ->
    JSON_parse text = Throws e ->
    recipe_failure openai foodName e.

(** The same for [getImageFromWeb]. *)
Inductive image_failure (foodOrIngName : jsstring) (env : Env)
  : Thrown -> Prop :=
| image_encode_throws e :
    encodeURIComponent foodOrIngName = Throws e ->
    image_failure foodOrIngName env e
| image_fetch_throws query e :
    encodeURIComponent foodOrIngName = Returns query ->
    node_fetch (search_url env query) = Throws e ->
    image_failure foodOrIngName env e
| image_upstream_error query response :
    encodeURIComponent foodOrIngName = Returns query ->
    node_fetch (search_url env query) = Returns response ->
    ok response = false ->
    image_failure foodOrIngName env
      (ThrownError
         (lit "Google API error: " ++ decimal (upstream_status response)))
| image_json_throws query response e :
    encodeURIComponent foodOrIngName = Returns query ->
    node_fetch (search_url env query) = Returns response ->
    ok response = true ->
    json response = Throws e ->
    image_failure foodOrIngName env e
| image_no_results query response data :
    encodeURIComponent foodOrIngName = Returns query ->
    node_fetch (search_url env query) = Returns response ->
    ok response = true ->
    json response = Returns data ->
    items data = None \/ items data = Some [] ->
    image_failure foodOrIngName env
      (ThrownError (lit "No results found on Google")).

(** The headers the router promises on every response. *)
Definition has_cors_headers (r : Response) : Prop :=
  headers_get (headers r) (lit "Access-Control-Allow-Origin")
    = Some (lit "*")
  /\ headers_get (headers r) (lit "Access-Control-Allow-Methods")
     = Some (lit "GET,HEAD,POST,OPTIONS")
  /\ headers_get (headers r) (lit "Access-Control-Allow-Headers")
     = Some (lit "Content-Type").

(** A number or literal in progress stands for the value it will be once
    the next delimiter arrives. *)
Definition settle (st : State) : option State :=
  match st with
  | (stack, MAtom acc) =>
      match atom_value (rev acc) with
      | Some v => deliver v stack
      | None => None
      end
  | _ => Some st
  end.

Definition skips_ws (m : Mode) : bool :=
  match m with
  | MValue | MArrayStart | MObjectStart | MKey | MColon | MAfter
  | MEnd _ => true
  | _ => false
  end.

Definition value_start (m : Mode) : bool :=
  match m with MValue | MArrayStart => true | _ => false end.

Definition key_start (m : Mode) : bool :=
  match m with MObjectStart | MKey => true | _ => false end.

Definition starts_with_delim (text : jsstring) : Prop :=
  match text with
  | c :: _ => is_delim c = true
  | [] => False
  end.

(** What the parser holds is in property order throughout. *)
Definition frame_ok (f : Frame) : Prop :=
  match f with
  | FArray es => Forall normal es
  | FObject ps | FMember ps _ =>
      key_order (map fst ps) /\ Forall (fun kv => normal (snd kv)) ps
  end.

Definition state_ok (st : State) : Prop :=
  Forall frame_ok (fst st)
  /\ match snd st with
     | MEnd v => normal v
     | _ => True
     end.

(** The text of [v] takes the parser from a place where a value may start
    to the place where [v] has been delivered. *)
Definition parses_as (gap : jsstring) (v : JValue) : Prop :=
  forall indent stack m st',
    forallb is_ws indent = true ->
    value_start m = true ->
    deliver v stack = Some st' ->
    exists st,
      run (stack, m) (SerializeJSONProperty gap indent v) = Some st
      /\ settle st = Some st'.

(** The text of one member of an object. *)
Definition member_text (gap indent : jsstring) (kv : jsstring * JValue)
  : jsstring :=
  QuoteJSONString (fst kv) ++ colon gap
    ++ SerializeJSONProperty gap indent (snd kv).

(** *** Further notions *)

(** The shape the single-endpoint variant holds the completion service
    to. *)
Definition single_recipe_schema : JValue :=
  match member (lit "schema") single_schema with
  | Some s => s
  | None => JNull
  end.

(** [String.prototype.isWellFormed]: no surrogate stands alone. *)
Fixpoint well_formed (s : jsstring) : bool :=
  match s with
  | [] => true
  | c :: rest =>
      if is_high_surrogate c then
        match rest with
        | d :: rest' => is_low_surrogate d && well_formed rest'
        | [] => false
        end
      else negb (is_low_surrogate c) && well_formed rest
  end.


(** The parts of a schema. *)
Definition required_keys (s : JValue) : list JValue :=
  match member (lit "required") s with
  | Some (JArray rs) => rs
  | _ => []
  end.

Definition properties_of (s : JValue) : props JValue :=
  match member (lit "properties") s with
  | Some (JObject ps) => ps
  | _ => []
  end.

Definition property_schema (k : string) (s : JValue) : JValue :=
  match obj_get (lit k) (properties_of s) with
  | Some p => p
  | None => JNull
  end.

Definition items_schema (s : JValue) : JValue :=
  match member (lit "items") s with
  | Some item => item
  | None => JNull
  end.

(** The schema of one ingredient of a recipe. *)
Definition ingredient_schema : JValue :=
  items_schema (property_schema "ingredients" recipe_schema).

End Worker.

Arguments Returns {engine A} a.
Arguments Throws {engine A} e.

Notation "x <- m ;; k" := (bind m (fun x => k))
  (at level 61, m at next level, right associativity).

(** ** A platform and requests to run the worker on *)

Definition sample_engine : Engine :=
  {| Num := N;
     StringToNumber := fun _ => 0;
     NumberToString := fun _ => lit "0";
     isFinite := fun _ => true;
     syntaxErrorMessage := fun _ => lit "Unexpected token in JSON";
     typeErrorMessage := lit "Cannot read properties of undefined";
     uriErrorMessage := lit "URI malformed" |}.

Section Samples.
#[local] Existing Instance sample_engine.

(** Services that give one answer to every call; the client cannot be
    built on an empty key. *)
Definition sample_client
    (completion : Outcome ChatCompletion)
  : OpenAI :=
  {| chat_completions_create := fun _ => completion |}.

Definition sample_services
    (completion : Outcome ChatCompletion)
    (upstream : Outcome UpstreamResponse)
  : Services :=
  {| new_OpenAI :=
       fun _ apiKey =>
         if is_empty apiKey then
           Throws (ThrownError (lit "Missing credentials"))
         else Returns (sample_client completion);
     node_fetch := fun _ => upstream |}.

Definition sample_env : Env :=
  {| GITHUB_TOKEN := lit "token";
     GOOGLE_API_KEY := lit "key";
     GOOGLE_CSE_ID := lit "engine" |}.

Definition tokenless_env : Env :=
  {| GITHUB_TOKEN := [];
     GOOGLE_API_KEY := lit "key";
     GOOGLE_CSE_ID := lit "engine" |}.

Definition GET (path : string) (query : list (string * string)) : Request :=
  {| method := lit "GET";
     url := {| pathname := lit path;
               searchParams :=
                 map (fun kv => (lit (fst kv), lit (snd kv))) query |} |}.

Definition sample_completion (finish : string)
    (refusal content : option jsstring)
  : Outcome ChatCompletion :=
  Returns
    {| choices :=
         [{| finish_reason := lit finish;
             message := {| refusal := refusal; content := content |} |}] |}.

Definition sample_choice (finish : string) (refusal content : option jsstring)
  : Choice :=
  {| finish_reason := lit finish;
     message := {| refusal := refusal; content := content |} |}.

Definition sample_recipe : Recipe :=
  {| recipe_name := lit "Lasagna";
     recipe_description := lit "Layers of pasta";
     ingredients :=
       [{| ingredient_name := lit "pasta"; amount := lit "500 g";
           ingredient_description := lit "sheets" |}];
     instructions := [lit "Boil the pasta."; lit "Bake."] |}.

Definition sample_recipe_text : jsstring :=
  qlit "{'name':'Lasagna','description':'Layers of pasta','ingredients':[{'name':'pasta','amount':'500 g','description':'sheets'}],'instructions':['Boil the pasta.','Bake.']}".

Definition sample_upstream (status : N) (found : option (list Item))
  : Outcome UpstreamResponse :=
  Returns {| upstream_status := status;
             json := Returns {| items := found |} |}.

Definition sample_item : Item :=
  {| link := lit "http://a"; image := {| thumbnailLink := lit "http://b" |} |}.

(** A completion cut off by the length cap, one that is refused, and one
    that carries a recipe. *)
Definition truncated_choice : Choice :=
  sample_choice "length" (Some (lit "no")) (Some (qlit "{'name':'Las")).

Definition refused_choice : Choice :=
  sample_choice "stop" (Some (lit "I cannot help with that"))
    (Some sample_recipe_text).

Definition recipe_choice : Choice :=
  sample_choice "stop" None (Some sample_recipe_text).

Definition client_answering (choice : Choice) : OpenAI :=
  sample_client (Returns {| choices := [choice] |}).

(** A client whose call throws a value that is no Error. *)
Definition failing_client : OpenAI :=
  sample_client (Throws (ThrownValue (JString (lit "timeout")))).

(** An image search that is down, and one that finds [sample_item]. *)
Definition unavailable : UpstreamResponse :=
  {| upstream_status := 503; json := Returns {| items := None |} |}.

Definition found : UpstreamResponse :=
  {| upstream_status := 200;
     json := Returns {| items := Some [sample_item] |} |}.

Definition services_with (upstream : UpstreamResponse) : Services :=
  sample_services (sample_completion "stop" None None) (Returns upstream).

(** A completion that carries nothing, one that carries white space, one
    whose content is JSON of another shape, and a completion without
    choices. *)
Definition empty_choice : Choice := sample_choice "stop" None None.

Definition blank_choice : Choice :=
  sample_choice "stop" None (Some (lit "  ")).

Definition other_text : jsstring :=
  qlit " { 'dish' : ['a','b'], '2' : null, 'dish' : 'soup' } ".

Definition other_value : JValue :=
  JObject [(lit "2", JNull); (lit "dish", JString (lit "soup"))].

Definition other_choice : Choice := sample_choice "stop" None (Some other_text).

Definition settled_choice : Choice :=
  sample_choice "stop" None (Some (JSON_stringify 2 other_value)).

Definition choiceless_client : OpenAI :=
  sample_client (Returns {| choices := [] |}).

(** A query that ends in half a surrogate pair. *)
Definition lone_surrogate : jsstring := [116; 55357].

End Samples.

(** * Properties *)

Section Verification.
Context {engine : Engine} {services : Services}.


(** ** Strings *)

Lemma str_eqb_spec (s t : jsstring) : reflect (s = t) (s === t).
Proof.
  revert t; induction s as [|c s IH]; intros [|d t]; simpl;
    try (constructor; congruence).
  destruct (N.eqb_spec c d) as [->|Hcd]; simpl.
  - destruct (IH t) as [->|Hst]; constructor; congruence.
  - constructor; congruence.
Qed.

Lemma str_eqb_refl (s : jsstring) : (s === s) = true.
Proof. destruct (str_eqb_spec s s); congruence. Qed.

Lemma str_eqb_eq (s t : jsstring) : (s === t) = true <-> s = t.
Proof. destruct (str_eqb_spec s t); split; congruence. Qed.

Lemma str_eqb_neq (s t : jsstring) : (s === t) = false <-> s <> t.
Proof. destruct (str_eqb_spec s t); split; congruence. Qed.


(** ** Running the parser over a quoted string *)

Lemma run_app (a b : jsstring) (st : State) :
  run st (a ++ b) =
  match run st a with Some st' => run st' b | None => None end.
Proof.
  revert st; induction a as [|c a IH]; intros st; simpl; [reflexivity|].
  destruct (step st c); [apply IH | reflexivity].
Qed.

Lemma step_ws stack m c :
  skips_ws m = true -> is_ws c = true -> step (stack, m) c = Some (stack, m).
Proof.
  intros Hm Hc; destruct m; try discriminate; simpl; rewrite Hc; reflexivity.
Qed.

Lemma run_ws (w : jsstring) stack m :
  skips_ws m = true -> forallb is_ws w = true ->
  run (stack, m) w = Some (stack, m).
Proof.
  intros Hm; induction w as [|c w IH]; cbn [run forallb]; [reflexivity|].
  intros Hw; apply andb_prop in Hw as [Hc Hw].
  rewrite (step_ws stack m c Hm Hc); auto.
Qed.

Lemma hex_value_hex_digit (d : N) :
  d < 16 -> hex_value (hex_digit d) = Some d.
Proof.
  intros Hd; unfold hex_digit, hex_value, is_digit.
  destruct (N.ltb_spec d 10).
  - replace (48 <=? 48 + d) with true by (symmetry; apply N.leb_le; lia).
    replace (48 + d <=? 57) with true by (symmetry; apply N.leb_le; lia).
    cbn [andb]; f_equal; lia.
  - replace (87 + d <=? 57) with false by (symmetry; apply N.leb_gt; lia).
    rewrite andb_false_r.
    replace (97 <=? 87 + d) with true by (symmetry; apply N.leb_le; lia).
    replace (87 + d <=? 102) with true by (symmetry; apply N.leb_le; lia).
    cbn [andb]; f_equal; lia.
Qed.

Lemma hex_digits_value (c : N) :
  c < 65536 ->
  16 * (16 * (16 * (16 * 0 + c / 4096 mod 16) + c / 256 mod 16)
        + c / 16 mod 16) + c mod 16 = c.
Proof.
  intros Hc.
  pose proof (N.div_mod c 16) as H1.
  pose proof (N.div_mod (c / 16) 16) as H2.
  pose proof (N.div_mod (c / 16 / 16) 16) as H3.
  rewrite !N.Div0.div_div in *.
  change (16 * 16) with 256 in *. change (256 * 16) with 4096 in *.
  assert (H4 : c / 4096 < 16) by (apply N.Div0.div_lt_upper_bound; lia).
  rewrite (N.mod_small (c / 4096) 16 H4).
  lia.
Qed.

Lemma run_unicode_escape stack k acc (c : code_unit) rest :
  c < 65536 ->
  run (stack, MString k acc) (unicode_escape c ++ rest) =
  run (stack, MString k (c :: acc)) rest.
Proof.
  intros Hc; unfold unicode_escape.
  cbn [app run step].
  change (92 =? 34) with false; change (92 =? 92) with true; cbn iota.
  cbn [run step]. change (117 =? 117) with true; cbn iota.
  do 4 (cbn [run step];
        rewrite hex_value_hex_digit by (apply N.mod_lt; lia);
        cbn [Nat.eqb]; cbn iota).
  rewrite hex_digits_value by exact Hc. reflexivity.
Qed.

Lemma step_plain_unit stack k acc (c : code_unit) :
  c <> 34 -> c <> 92 -> 32 <= c ->
  step (stack, MString k acc) c = Some (stack, MString k (c :: acc)).
Proof.
  intros H34 H92 H32; cbn [step].
  destruct (N.eqb_spec c 34); [contradiction|].
  destruct (N.eqb_spec c 92); [contradiction|].
  destruct (N.ltb_spec c 32); [lia | reflexivity].
Qed.

Lemma run_quote_unit stack k acc (c : code_unit) rest :
  run (stack, MString k acc) (quote_unit c ++ rest) =
  run (stack, MString k (c :: acc)) rest.
Proof.
  unfold quote_unit.
  destruct (N.eqb_spec c 8) as [->|H8]; [reflexivity|].
  destruct (N.eqb_spec c 9) as [->|H9]; [reflexivity|].
  destruct (N.eqb_spec c 10) as [->|H10]; [reflexivity|].
  destruct (N.eqb_spec c 12) as [->|H12]; [reflexivity|].
  destruct (N.eqb_spec c 13) as [->|H13]; [reflexivity|].
  destruct (N.eqb_spec c 34) as [->|H34]; [reflexivity|].
  destruct (N.eqb_spec c 92) as [->|H92]; [reflexivity|].
  destruct ((c <? 32) || is_high_surrogate c || is_low_surrogate c) eqn:E.
  - apply run_unicode_escape.
    unfold is_high_surrogate, is_low_surrogate in E.
    apply orb_prop in E as [E|E]; [apply orb_prop in E as [E|E]|].
    + apply N.ltb_lt in E; lia.
    + apply andb_prop in E as [_ E]; apply N.leb_le in E; lia.
    + apply andb_prop in E as [_ E]; apply N.leb_le in E; lia.
  - apply orb_false_elim in E as [E _].
    apply orb_false_elim in E as [E _]; apply N.ltb_ge in E.
    cbn [app run]. rewrite step_plain_unit by assumption. reflexivity.
Qed.

Lemma step_surrogate stack k acc (c : code_unit) :
  (is_high_surrogate c || is_low_surrogate c) = true ->
  step (stack, MString k acc) c = Some (stack, MString k (c :: acc)).
Proof.
  unfold is_high_surrogate, is_low_surrogate; intros E.
  apply step_plain_unit;
    apply orb_prop in E as [E|E]; apply andb_prop in E as [E _];
    apply N.leb_le in E; lia.
Qed.

Lemma run_quote_body (s : jsstring) :
  forall stack k acc rest,
    run (stack, MString k acc) (quote_body s ++ rest) =
    run (stack, MString k (rev s ++ acc)) rest.
Proof.
  enough (H : (forall stack k acc rest,
                  run (stack, MString k acc) (quote_body s ++ rest) =
                  run (stack, MString k (rev s ++ acc)) rest)
              /\ forall c stack k acc rest,
                  run (stack, MString k acc) (quote_body (c :: s) ++ rest) =
                  run (stack, MString k (rev (c :: s) ++ acc)) rest)
    by apply H.
  induction s as [|d s [IHs IHds]].
  - split; [reflexivity|].
    intros c stack k acc rest; cbn [quote_body rev app].
    destruct (is_high_surrogate c) eqn:Hc.
    + apply run_unicode_escape.
      unfold is_high_surrogate in Hc.
      apply andb_prop in Hc as [_ Hc]; apply N.leb_le in Hc; lia.
    + rewrite app_nil_r. apply run_quote_unit.
  - split; [apply IHds|].
    intros c stack k acc rest.
    change (rev (c :: d :: s)) with ((rev s ++ [d]) ++ [c]).
    rewrite <- !app_assoc. cbn [app].
    change (quote_body (c :: d :: s)) with
      (if is_high_surrogate c then
         if is_low_surrogate d then c :: d :: quote_body s
         else unicode_escape c ++ quote_body (d :: s)
       else quote_unit c ++ quote_body (d :: s)).
    destruct (is_high_surrogate c) eqn:Hc; [destruct (is_low_surrogate d) eqn:Hd|].
    + cbn [app run].
      rewrite step_surrogate by (rewrite Hc; reflexivity). cbn [run].
      rewrite step_surrogate by (rewrite Hd; apply orb_true_r).
      apply IHs.
    + rewrite <- app_assoc, run_unicode_escape.
      * rewrite IHds. cbn [rev]. rewrite <- app_assoc. reflexivity.
      * unfold is_high_surrogate in Hc.
        apply andb_prop in Hc as [_ Hc]; apply N.leb_le in Hc; lia.
    + rewrite <- app_assoc, run_quote_unit, IHds.
      cbn [rev]. rewrite <- app_assoc. reflexivity.
Qed.

Lemma run_string_value (s : jsstring) stack m rest :
  value_start m = true ->
  run (stack, m) (QuoteJSONString s ++ rest) =
  match deliver (JString s) stack with
  | Some st => run st rest
  | None => None
  end.
Proof.
  intros Hm; unfold QuoteJSONString.
  change ((34 :: quote_body s ++ [34]) ++ rest)
    with (34 :: (quote_body s ++ [34]) ++ rest).
  rewrite <- app_assoc.
  assert (E : step (stack, m) 34 = Some (stack, MString false []))
    by (destruct m; try discriminate; reflexivity).
  cbn [run]; rewrite E, run_quote_body, app_nil_r.
  cbn [app run step N.eqb Pos.eqb string_done]; rewrite rev_involutive.
  reflexivity.
Qed.

Lemma run_string_key (s : jsstring) ps stack m rest :
  key_start m = true ->
  run (FObject ps :: stack, m) (QuoteJSONString s ++ rest) =
  run (FMember ps s :: stack, MColon) rest.
Proof.
  intros Hm; unfold QuoteJSONString.
  change ((34 :: quote_body s ++ [34]) ++ rest)
    with (34 :: (quote_body s ++ [34]) ++ rest).
  rewrite <- app_assoc.
  assert (E : step (FObject ps :: stack, m) 34
              = Some (FObject ps :: stack, MString true []))
    by (destruct m; try discriminate; reflexivity).
  cbn [run]; rewrite E, run_quote_body, app_nil_r.
  cbn [app run step N.eqb Pos.eqb string_done]; rewrite rev_involutive.
  reflexivity.
Qed.

(** ** Property order *)

Section KeyOrder.
Context {V : Type}.
Implicit Types (o : props V) (k : jsstring) (v : V).

Lemma has_key_In k o : has_key k o = true <-> In k (map fst o).
Proof.
  unfold has_key; rewrite existsb_exists, in_map_iff; split.
  - intros [kv [Hin Hk]]; apply str_eqb_eq in Hk; subst; eauto.
  - intros [kv [Hk Hin]]; exists kv; split; [assumption|].
    subst; apply str_eqb_refl.
Qed.

Lemma has_key_not_In k o : has_key k o = false <-> ~ In k (map fst o).
Proof.
  rewrite <- has_key_In; destruct (has_key k o); split; congruence.
Qed.

Lemma keys_obj_update k v o : map fst (obj_update k v o) = map fst o.
Proof.
  induction o as [|[k' v'] o IH]; cbn [obj_update]; [reflexivity|].
  destruct (k === k'); cbn [map fst]; [reflexivity | now rewrite IH].
Qed.

Lemma In_keys_obj_insert k v o x :
  In x (map fst (obj_insert k v o)) <-> x = k \/ In x (map fst o).
Proof.
  induction o as [|[k' v'] o IH]; cbn [obj_insert map fst In].
  - intuition congruence.
  - destruct (before k k'); cbn [map fst In]; [intuition congruence|].
    rewrite IH; intuition congruence.
Qed.

Lemma Forall_keys_obj_insert (P : jsstring -> Prop) k v o :
  P k -> Forall P (map fst o) -> Forall P (map fst (obj_insert k v o)).
Proof.
  intros Hk Ho; apply Forall_forall; intros x Hx.
  apply In_keys_obj_insert in Hx as [->|Hx]; [assumption|].
  rewrite Forall_forall in Ho; auto.
Qed.

Lemma obj_insert_last k v o :
  Forall (fun k' => before k k' = false) (map fst o) ->
  obj_insert k v o = o ++ [(k, v)].
Proof.
  induction o as [|[k' v'] o IH]; cbn [obj_insert map fst app];
    [reflexivity|].
  intros H; inversion H as [|? ? Hk' Ho]; subst.
  rewrite Hk', IH by assumption. reflexivity.
Qed.

Lemma key_order_snoc_inv (ks : list jsstring) k :
  key_order (ks ++ [k]) ->
  ~ In k ks /\ Forall (fun k' => before k k' = false) ks /\ key_order ks.
Proof.
  induction ks as [|k0 ks IH]; cbn [app]; intros H.
  - repeat split; [intros [] | constructor | constructor].
  - inversion H as [|? ? Hnot Hall Hks]; subst.
    destruct (IH Hks) as (Hk & Hbefore & Hord).
    rewrite Forall_app in Hall; destruct Hall as [Hall Hlast].
    inversion Hlast; subst.
    repeat split.
    + intros [->|Hin]; [|contradiction].
      apply Hnot, in_or_app; right; left; reflexivity.
    + constructor; assumption.
    + constructor; [|assumption..].
      intros Hin; apply Hnot, in_or_app; left; assumption.
Qed.

Lemma key_order_app_l (ks ks' : list jsstring) :
  key_order (ks ++ ks') -> key_order ks.
Proof.
  induction ks as [|k ks IH]; cbn [app]; intros H; [constructor|].
  inversion H as [|? ? Hnot Hall Hks]; subst.
  rewrite Forall_app in Hall.
  constructor; [|tauto|auto].
  intros Hin; apply Hnot, in_or_app; left; assumption.
Qed.

Lemma obj_set_last k v o :
  key_order (map fst o ++ [k]) -> obj_set k v o = o ++ [(k, v)].
Proof.
  intros H; apply key_order_snoc_inv in H as (Hk & Hbefore & _).
  unfold obj_set.
  apply has_key_not_In in Hk; rewrite Hk.
  apply obj_insert_last; assumption.
Qed.

Lemma fold_obj_set_ordered (kvs : props V) :
  forall o,
    key_order (map fst (o ++ kvs)) ->
    fold_left (fun o' kv => obj_set (fst kv) (snd kv) o') kvs o = o ++ kvs.
Proof.
  induction kvs as [|[k v] kvs IH]; intros o H; cbn [fold_left fst snd].
  - symmetry; apply app_nil_r.
  - replace (o ++ (k, v) :: kvs) with ((o ++ [(k, v)]) ++ kvs) in *
      by (rewrite <- app_assoc; reflexivity).
    rewrite obj_set_last.
    + apply IH; assumption.
    + rewrite !map_app in H; apply key_order_app_l in H; exact H.
Qed.

Lemma obj_of_list_ordered (kvs : props V) :
  key_order (map fst kvs) -> obj_of_list kvs = kvs.
Proof. intros H; apply (fold_obj_set_ordered kvs []); exact H. Qed.

Lemma before_asym k k' : before k k' = true -> before k' k = false.
Proof.
  unfold before.
  destruct (index_of_key k) as [n|], (index_of_key k') as [n'|];
    try congruence.
  intros H; apply N.ltb_lt in H; apply N.ltb_ge; lia.
Qed.

Lemma before_later k k0 y :
  before k k0 = true -> before y k0 = false -> before y k = false.
Proof.
  unfold before.
  destruct (index_of_key k) as [n|], (index_of_key k0) as [n0|],
    (index_of_key y) as [m|]; try congruence.
  intros H1 H2; apply N.ltb_lt in H1; apply N.ltb_ge in H2.
  apply N.ltb_ge; lia.
Qed.

Lemma key_order_obj_insert k v o :
  key_order (map fst o) -> ~ In k (map fst o) ->
  key_order (map fst (obj_insert k v o)).
Proof.
  induction o as [|[k' v'] o IH]; cbn [obj_insert map fst]; intros Ho Hk.
  - constructor; [intros [] | constructor | constructor].
  - inversion Ho as [|? ? Hnot Hall Hord]; subst.
    destruct (before k k') eqn:Hb; cbn [map fst].
    + constructor; [exact Hk| |exact Ho].
      constructor; [apply before_asym; exact Hb|].
      eapply Forall_impl; [|exact Hall].
      intros y Hy; cbv beta in Hy; eapply before_later; eassumption.
    + constructor.
      * rewrite In_keys_obj_insert; intros [->|Hin]; [|contradiction].
        apply Hk; left; reflexivity.
      * apply Forall_keys_obj_insert; assumption.
      * apply IH; [assumption|].
        intros Hin; apply Hk; right; assumption.
Qed.

Lemma key_order_obj_set k v o :
  key_order (map fst o) -> key_order (map fst (obj_set k v o)).
Proof.
  intros Ho; unfold obj_set; destruct (has_key k o) eqn:Hk.
  - rewrite keys_obj_update; exact Ho.
  - apply key_order_obj_insert; [exact Ho|].
    apply has_key_not_In; exact Hk.
Qed.

Lemma Forall_obj_set (P : V -> Prop) k v o :
  P v -> Forall (fun kv => P (snd kv)) o ->
  Forall (fun kv => P (snd kv)) (obj_set k v o).
Proof.
  intros Hv Ho; unfold obj_set; destruct (has_key k o).
  - induction Ho as [|[k' v'] o Hkv Ho IH]; cbn [obj_update];
      [constructor|].
    destruct (k === k'); constructor; auto.
  - induction Ho as [|[k' v'] o Hkv Ho IH]; cbn [obj_insert].
    + constructor; [exact Hv | constructor].
    + destruct (before k k'); constructor; auto.
Qed.
End KeyOrder.


(** ** [JSON.parse] reads back what [JSON.stringify] writes *)

Lemma deliver_mode v stack st :
  deliver v stack = Some st -> snd st = MAfter \/ snd st = MEnd v.
Proof.
  destruct stack as [|[es|ps|ps k] stack]; cbn [deliver]; intros H;
    inversion H; subst; cbn [snd]; auto.
Qed.

Lemma settle_deliver v stack st :
  deliver v stack = Some st -> settle st = Some st.
Proof.
  intros H; destruct (deliver_mode _ _ _ H) as [E|E];
    destruct st as [stack' m]; cbn [snd] in E; subst; reflexivity.
Qed.

Lemma step_settle st st' (c : code_unit) :
  is_delim c = true -> settle st = Some st' -> step st c = step st' c.
Proof.
  intros Hc; destruct st as [stack m].
  destruct m; cbn [settle]; try (intros H; inversion H; reflexivity).
  cbn [step]; rewrite Hc.
  destruct (atom_value (rev acc)) as [v|]; [|discriminate].
  intros H; rewrite H.
  destruct (deliver_mode _ _ _ H) as [E|E];
    destruct st' as [stack' m']; cbn [snd] in E; subst; reflexivity.
Qed.

Lemma run_settle st st' (text : jsstring) :
  starts_with_delim text -> settle st = Some st' ->
  run st text = run st' text.
Proof.
  destruct text as [|c text]; cbn [starts_with_delim]; [intros []|].
  intros Hc Hs; cbn [run]; rewrite (step_settle st st' c Hc Hs).
  reflexivity.
Qed.

Lemma finish_settle st v :
  settle st = Some ([], MEnd v) -> finish st = Some v.
Proof.
  destruct st as [stack m]; destruct m; cbn [settle];
    try (intros H; inversion H; reflexivity).
  destruct (atom_value (rev acc)) as [v'|] eqn:E; [|discriminate].
  destruct stack as [|[es|ps|ps k] stack]; cbn [deliver]; intros H;
    inversion H; subst.
  cbn [finish]; exact E.
Qed.

Lemma delim_ws (c : code_unit) : is_ws c = true -> is_delim c = true.
Proof. intros H; unfold is_delim; rewrite H; reflexivity. Qed.

Lemma starts_with_delim_ws (w : jsstring) (c : code_unit) text :
  forallb is_ws w = true -> is_delim c = true ->
  starts_with_delim (w ++ c :: text).
Proof.
  destruct w as [|d w]; cbn [app starts_with_delim forallb]; [auto|].
  intros H _; apply andb_prop in H as [H _]; apply delim_ws; exact H.
Qed.

(** The two layouts of a non-empty array or object, compact and indented,
    differ in white space only. *)
Lemma wrap_shape (opening closing : code_unit) gap indent stepback :
  forallb is_ws indent = true -> forallb is_ws stepback = true ->
  exists w1 w2 w3,
    forallb is_ws w1 = true /\ forallb is_ws w2 = true
    /\ forallb is_ws w3 = true
    /\ forall p ps,
        wrap opening closing gap indent stepback (p :: ps) =
        opening :: w1 ++ join (44 :: w2) (p :: ps) ++ w3 ++ [closing].
Proof.
  intros Hi Hs; unfold wrap; destruct (is_empty gap).
  - exists [], [], []; repeat split; reflexivity.
  - exists (10 :: indent), (10 :: indent), (10 :: stepback).
    cbn [forallb]; rewrite Hi, Hs; repeat split.
Qed.

Lemma colon_shape gap :
  exists w, forallb is_ws w = true /\ colon gap = 58 :: w.
Proof.
  unfold colon; destruct (is_empty gap);
    [exists [] | exists [32]]; split; reflexivity.
Qed.

Lemma step_open_array stack m :
  value_start m = true ->
  step (stack, m) 91 = Some (FArray [] :: stack, MArrayStart).
Proof. destruct m; try discriminate; reflexivity. Qed.

Lemma step_open_object stack m :
  value_start m = true ->
  step (stack, m) 123 = Some (FObject [] :: stack, MObjectStart).
Proof. destruct m; try discriminate; reflexivity. Qed.

Lemma parses_as_run gap v indent stack m st' text :
  parses_as gap v ->
  forallb is_ws indent = true ->
  value_start m = true ->
  deliver v stack = Some st' ->
  starts_with_delim text ->
  run (stack, m) (SerializeJSONProperty gap indent v ++ text) = run st' text.
Proof.
  intros Hv Hi Hm Hd Ht.
  destruct (Hv indent stack m st' Hi Hm Hd) as (st & Hrun & Hset).
  rewrite run_app, Hrun. apply run_settle; assumption.
Qed.

Lemma run_elements gap indent stack (w : jsstring) (vs : list JValue) :
  Forall (parses_as gap) vs ->
  forallb is_ws indent = true ->
  forallb is_ws w = true ->
  forall v es m text,
    parses_as gap v ->
    value_start m = true ->
    starts_with_delim text ->
    run (FArray es :: stack, m)
        (join (44 :: w)
              (SerializeJSONProperty gap indent v
                 :: map (SerializeJSONProperty gap indent) vs)
           ++ text)
    = run (FArray (rev vs ++ v :: es) :: stack, MAfter) text.
Proof.
  intros Hvs Hi Hw; induction Hvs as [|v' vs Hv' Hvs IH];
    intros v es m text Hv Hm Ht.
  - cbn [map join rev app].
    apply parses_as_run; auto.
  - change (join (44 :: w)
              (SerializeJSONProperty gap indent v
                 :: map (SerializeJSONProperty gap indent) (v' :: vs)))
      with (SerializeJSONProperty gap indent v
              ++ (44 :: w)
              ++ join (44 :: w)
                   (SerializeJSONProperty gap indent v'
                      :: map (SerializeJSONProperty gap indent) vs)).
    rewrite <- !app_assoc.
    rewrite (parses_as_run gap v indent (FArray es :: stack) m
               (FArray (v :: es) :: stack, MAfter));
      [|assumption|assumption|assumption|reflexivity|reflexivity].
    cbn [app run step step_after is_ws N.eqb Pos.eqb orb].
    rewrite run_app, run_ws by auto.
    rewrite IH by auto.
    cbn [rev]. rewrite <- app_assoc. reflexivity.
Qed.

Lemma run_member gap indent stack ps m kv text :
  parses_as gap (snd kv) ->
  forallb is_ws indent = true ->
  key_start m = true ->
  starts_with_delim text ->
  run (FObject ps :: stack, m) (member_text gap indent kv ++ text)
  = run (FObject (obj_set (fst kv) (snd kv) ps) :: stack, MAfter) text.
Proof.
  intros Hv Hi Hm Ht; unfold member_text.
  destruct (colon_shape gap) as (w & Hw & ->).
  rewrite <- !app_assoc, run_string_key by exact Hm.
  cbn [app run step is_ws N.eqb Pos.eqb orb].
  rewrite run_app, run_ws by auto.
  apply parses_as_run; auto.
Qed.

Lemma run_members gap indent stack (w : jsstring)
    (kvs : list (jsstring * JValue)) :
  Forall (fun kv => parses_as gap (snd kv)) kvs ->
  forallb is_ws indent = true ->
  forallb is_ws w = true ->
  forall kv ps m text,
    parses_as gap (snd kv) ->
    key_start m = true ->
    starts_with_delim text ->
    run (FObject ps :: stack, m)
        (join (44 :: w)
              (member_text gap indent kv :: map (member_text gap indent) kvs)
           ++ text)
    = run (FObject
             (fold_left (fun o x => obj_set (fst x) (snd x) o) (kv :: kvs) ps)
             :: stack, MAfter) text.
Proof.
  intros Hkvs Hi Hw; induction Hkvs as [|kv' kvs Hkv' Hkvs IH];
    intros kv ps m text Hkv Hm Ht.
  - cbn [map join fold_left]. apply run_member; auto.
  - change (join (44 :: w)
              (member_text gap indent kv
                 :: map (member_text gap indent) (kv' :: kvs)))
      with (member_text gap indent kv
              ++ (44 :: w)
              ++ join (44 :: w)
                   (member_text gap indent kv'
                      :: map (member_text gap indent) kvs)).
    rewrite <- !app_assoc.
    rewrite run_member; [|assumption|assumption|assumption|reflexivity].
    cbn [app run step step_after is_ws N.eqb Pos.eqb orb].
    rewrite run_app, run_ws by auto.
    rewrite IH by auto.
    reflexivity.
Qed.

Lemma Forall_parses_as {A} (f : A -> JValue) (P : JValue -> Prop) l :
  Forall (fun x => number_free (f x) -> normal (f x) -> P (f x)) l ->
  Forall (fun x => number_free (f x)) l ->
  Forall (fun x => normal (f x)) l ->
  Forall (fun x => P (f x)) l.
Proof.
  induction 1 as [|x l Hx Hl IH]; intros Hn Hc; [constructor|].
  inversion Hn; inversion Hc; subst; constructor; auto.
Qed.

Lemma serialize_parses gap :
  forallb is_ws gap = true ->
  forall v, number_free v -> normal v -> parses_as gap v.
Proof.
  intros Hgap v; induction v as [|b|n|s|vs IH|kvs IH] using JValue_ind;
    intros Hnf Hnorm indent stack m st' Hi Hm Hd.
  - exists (stack, MAtom (rev (lit "null"))); split;
      [destruct m; try discriminate; reflexivity | exact Hd].
  - destruct b.
    + exists (stack, MAtom (rev (lit "true"))); split;
        [destruct m; try discriminate; reflexivity | exact Hd].
    + exists (stack, MAtom (rev (lit "false"))); split;
        [destruct m; try discriminate; reflexivity | exact Hd].
  - inversion Hnf.
  - exists st'; split; [|eapply settle_deliver; exact Hd].
    cbn [SerializeJSONProperty].
    rewrite <- (app_nil_r (QuoteJSONString s)).
    rewrite run_string_value, Hd by exact Hm. reflexivity.
  - exists st'; split; [|eapply settle_deliver; exact Hd].
    inversion Hnf as [| | |? Hnf'|]; inversion Hnorm as [| | | |? Hnorm'|];
      subst.
    assert (Hvs : Forall (parses_as gap) vs)
      by (apply (Forall_parses_as (fun x => x)); assumption).
    cbn [SerializeJSONProperty].
    destruct vs as [|v vs].
    + cbn [map wrap run]. rewrite (step_open_array _ _ Hm).
      cbn [run step N.eqb Pos.eqb is_ws orb close_array rev].
      rewrite Hd; reflexivity.
    + assert (Hi' : forallb is_ws (indent ++ gap) = true)
        by (rewrite forallb_app, Hi, Hgap; reflexivity).
      destruct (wrap_shape 91 93 gap (indent ++ gap) indent Hi' Hi)
        as (w1 & w2 & w3 & Hw1 & Hw2 & Hw3 & Hwrap).
      cbn [map]; rewrite Hwrap.
      cbn [run]; rewrite (step_open_array _ _ Hm).
      rewrite run_app, run_ws by auto.
      inversion Hvs; subst.
      rewrite run_elements; auto;
        [|apply starts_with_delim_ws; [exact Hw3 | reflexivity]].
      rewrite run_app, run_ws by auto.
      cbn [run step step_after is_ws N.eqb Pos.eqb orb close_array].
      rewrite rev_app_distr, rev_involutive. cbn [rev app].
      rewrite Hd; reflexivity.
  - exists st'; split; [|eapply settle_deliver; exact Hd].
    inversion Hnf as [| | | |? Hnf']; inversion Hnorm as [| | | | |? Hord Hnorm'];
      subst.
    assert (Hkvs : Forall (fun kv => parses_as gap (snd kv)) kvs)
      by (apply (Forall_parses_as snd); assumption).
    cbn [SerializeJSONProperty].
    destruct kvs as [|kv kvs].
    + cbn [map wrap run]. rewrite (step_open_object _ _ Hm).
      cbn [run step N.eqb Pos.eqb is_ws orb close_object].
      rewrite Hd; reflexivity.
    + assert (Hi' : forallb is_ws (indent ++ gap) = true)
        by (rewrite forallb_app, Hi, Hgap; reflexivity).
      destruct (wrap_shape 123 125 gap (indent ++ gap) indent Hi' Hi)
        as (w1 & w2 & w3 & Hw1 & Hw2 & Hw3 & Hwrap).
      cbn [map]; rewrite Hwrap.
      cbn [run]; rewrite (step_open_object _ _ Hm).
      rewrite run_app, run_ws by auto.
      inversion Hkvs; subst.
      change (QuoteJSONString (fst kv) ++ colon gap
                ++ SerializeJSONProperty gap (indent ++ gap) (snd kv))
        with (member_text gap (indent ++ gap) kv).
      change (map (fun kv0 =>
                     QuoteJSONString (fst kv0) ++ colon gap
                       ++ SerializeJSONProperty gap (indent ++ gap) (snd kv0))
                  kvs)
        with (map (member_text gap (indent ++ gap)) kvs).
      rewrite run_members; auto;
        [|apply starts_with_delim_ws; [exact Hw3 | reflexivity]].
      rewrite run_app, run_ws by auto.
      cbn [run step step_after is_ws N.eqb Pos.eqb orb close_object].
      change (fold_left (fun o x => obj_set (fst x) (snd x) o) (kv :: kvs) [])
        with (obj_of_list (kv :: kvs)).
      rewrite obj_of_list_ordered by exact Hord.
      rewrite Hd; reflexivity.
Qed.

(** Every value without numbers that JavaScript can hold is read back
    from its text, at every indentation. *)
Lemma parse_stringify (space : nat) (v : JValue) :
  number_free v -> normal v ->
  JSON_parse (JSON_stringify space v) = Returns v.
Proof.
  intros Hnf Hnorm; unfold JSON_parse, JSON_stringify.
  assert (Hgap : forallb is_ws (repeat 32 (Nat.min 10 space)) = true)
    by (induction (Nat.min 10 space); [reflexivity | assumption]).
  destruct (serialize_parses _ Hgap v Hnf Hnorm [] [] MValue ([], MEnd v))
    as (st & Hrun & Hset); [reflexivity..|].
  rewrite Hrun, (finish_settle st v Hset). reflexivity.
Qed.

(** ** What [JSON.parse] returns is in property order *)

Ltac some_inv H := inversion H; subst; clear H.

Ltac break_match H :=
  match type of H with
  | context [if ?b then _ else _] => destruct b eqn:?
  | context [match ?x with _ => _ end] => destruct x eqn:?
  end; try discriminate.

Lemma state_ok_mode stack m m' :
  state_ok (stack, m) ->
  match m' with MEnd _ => False | _ => True end ->
  state_ok (stack, m').
Proof.
  intros [Hs _] Hm; split; [exact Hs|].
  destruct m'; cbn [snd]; solve [exact I | contradiction].
Qed.

Lemma deliver_ok v stack st :
  normal v -> Forall frame_ok stack -> deliver v stack = Some st ->
  state_ok st.
Proof.
  intros Hv Hs; destruct stack as [|[es|ps|ps k] stack]; cbn [deliver];
    intros H; some_inv H.
  - split; [constructor | exact Hv].
  - inversion Hs as [|? ? Hf Hs']; subst; cbn [frame_ok] in Hf.
    split; [|exact I].
    constructor; [|assumption]. cbn [frame_ok]; constructor; assumption.
  - inversion Hs as [|? ? Hf Hs']; subst; cbn [frame_ok] in Hf.
    destruct Hf as [Hord Hps]; split; [|exact I].
    constructor; [|assumption]. cbn [frame_ok]; split.
    + apply key_order_obj_set; exact Hord.
    + apply (Forall_obj_set normal); assumption.
Qed.

Lemma atom_value_normal lexeme v : atom_value lexeme = Some v -> normal v.
Proof.
  unfold atom_value; intros H.
  repeat break_match H; some_inv H; constructor.
Qed.

Lemma close_array_ok stack st :
  Forall frame_ok stack -> close_array stack = Some st -> state_ok st.
Proof.
  intros Hs; destruct stack as [|[es|ps|ps k] stack]; cbn [close_array];
    try discriminate.
  inversion Hs as [|? ? Hes Hs']; subst; cbn [frame_ok] in Hes.
  apply deliver_ok; [|assumption].
  constructor; apply Forall_rev; exact Hes.
Qed.

Lemma close_object_ok stack st :
  Forall frame_ok stack -> close_object stack = Some st -> state_ok st.
Proof.
  intros Hs; destruct stack as [|[es|ps|ps k] stack]; cbn [close_object];
    try discriminate.
  inversion Hs as [|? ? Hf Hs']; subst; cbn [frame_ok] in Hf.
  destruct Hf as [Hord Hps].
  apply deliver_ok; [|assumption].
  constructor; assumption.
Qed.

Lemma start_value_ok stack (c : code_unit) st :
  Forall frame_ok stack -> start_value stack c = Some st -> state_ok st.
Proof.
  intros Hs; unfold start_value; intros H.
  repeat break_match H; some_inv H; (split; [|exact I]); try assumption.
  - constructor; [cbn [frame_ok]; constructor | assumption].
  - constructor; [cbn [frame_ok map]; split; constructor | assumption].
Qed.

Lemma string_done_ok is_key acc stack st :
  Forall frame_ok stack -> string_done is_key acc stack = Some st ->
  state_ok st.
Proof.
  intros Hs; unfold string_done; destruct is_key.
  - destruct stack as [|[es|ps|ps k] stack]; try discriminate.
    intros H; some_inv H. inversion Hs as [|? ? Hf Hs']; subst.
    split; [|exact I]. constructor; assumption.
  - apply deliver_ok; [constructor | assumption].
Qed.

Lemma step_after_ok stack m (c : code_unit) st :
  state_ok (stack, m) -> step_after stack m c = Some st -> state_ok st.
Proof.
  intros Hok H. pose proof Hok as [Hs Hm]; cbn [fst snd] in Hs, Hm.
  destruct m; cbn [step_after] in H; try discriminate.
  - destruct (is_ws c); [some_inv H; exact Hok|].
    destruct (c =? 44).
    { destruct stack as [|[es|ps|ps k] stack]; try discriminate;
        some_inv H; (split; [exact Hs | exact I]). }
    destruct (c =? 93); [eapply close_array_ok; eassumption|].
    destruct (c =? 125); [eapply close_object_ok; eassumption|].
    discriminate.
  - destruct (is_ws c); [some_inv H; exact Hok | discriminate].
Qed.

Lemma step_ok st (c : code_unit) st' :
  state_ok st -> step st c = Some st' -> state_ok st'.
Proof.
  destruct st as [stack m]; intros Hok H.
  pose proof Hok as [Hs _]; cbn [fst] in Hs.
  destruct m; cbn [step] in H.
  - destruct (is_ws c); [some_inv H; exact Hok|].
    eapply start_value_ok; eassumption.
  - destruct (is_ws c); [some_inv H; exact Hok|].
    destruct (c =? 93); [eapply close_array_ok; eassumption|].
    eapply start_value_ok; eassumption.
  - destruct (is_ws c); [some_inv H; exact Hok|].
    destruct (c =? 34); [some_inv H; split; [exact Hs | exact I]|].
    destruct (c =? 125); [eapply close_object_ok; eassumption|].
    discriminate.
  - destruct (is_ws c); [some_inv H; exact Hok|].
    destruct (c =? 34); [some_inv H; split; [exact Hs | exact I] | discriminate].
  - destruct (is_ws c); [some_inv H; exact Hok|].
    destruct (c =? 58); [some_inv H; split; [exact Hs | exact I] | discriminate].
  - eapply step_after_ok; eassumption.
  - destruct (c =? 34); [eapply string_done_ok; eassumption|].
    destruct (c =? 92); [some_inv H; split; [exact Hs | exact I]|].
    destruct (c <? 32); [discriminate | some_inv H; split; [exact Hs | exact I]].
  - destruct (c =? 117); [some_inv H; split; [exact Hs | exact I]|].
    destruct (unescape c); [some_inv H; split; [exact Hs | exact I] | discriminate].
  - destruct (hex_value c); [|discriminate].
    destruct (Nat.eqb count 3); some_inv H; (split; [exact Hs | exact I]).
  - destruct (is_delim c); [|some_inv H; split; [exact Hs | exact I]].
    destruct (atom_value (rev acc)) as [v|] eqn:Ev; [|discriminate].
    destruct (deliver v stack) as [[stack' m']|] eqn:Ed; [|discriminate].
    eapply step_after_ok; [|exact H].
    eapply deliver_ok; [eapply atom_value_normal| |]; eassumption.
  - eapply step_after_ok; eassumption.
Qed.

Lemma run_ok (text : jsstring) :
  forall st st', state_ok st -> run st text = Some st' -> state_ok st'.
Proof.
  induction text as [|c text IH]; intros st st' Hok; cbn [run].
  - intros H; some_inv H; exact Hok.
  - destruct (step st c) as [st1|] eqn:E; [|discriminate].
    apply IH. eapply step_ok; eassumption.
Qed.

Lemma JSON_parse_normal (text : jsstring) (v : JValue) :
  JSON_parse text = Returns v -> normal v.
Proof.
  unfold JSON_parse.
  destruct (run ([], MValue) text) as [st|] eqn:Hrun; [|discriminate].
  assert (Hok : state_ok st)
    by (eapply run_ok; [|exact Hrun]; split; [constructor | exact I]).
  destruct (finish st) as [v'|] eqn:Hfin; [|discriminate].
  intros H; some_inv H.
  destruct st as [[|f stack] m]; [|discriminate].
  destruct m; try discriminate; cbn [finish] in Hfin.
  - eapply atom_value_normal; exact Hfin.
  - some_inv Hfin. destruct Hok as [_ Hv]; exact Hv.
Qed.

Lemma JSON_parse_nonempty (text : jsstring) (v : JValue) :
  JSON_parse text = Returns v -> text <> [].
Proof. intros H ->; discriminate. Qed.

(** A value the parser returns, when it holds no number, is read back
    from its own text. *)
Lemma parse_stringify_parse (space : nat) (text : jsstring) (v : JValue) :
  JSON_parse text = Returns v -> number_free v ->
  JSON_parse (JSON_stringify space v) = Returns v.
Proof.
  intros Hp Hnf; apply parse_stringify; [exact Hnf|].
  eapply JSON_parse_normal; exact Hp.
Qed.

(** ** The handlers *)

Lemma error_object_eq (m : jsstring) :
  error_object m = JObject [(lit "error", JString m)].
Proof. reflexivity. Qed.

Lemma error_object_normal (m : jsstring) : normal (error_object m).
Proof.
  rewrite error_object_eq; constructor; cbn [map fst].
  - constructor; [intros [] | constructor | constructor].
  - repeat constructor.
Qed.

Lemma error_object_number_free (m : jsstring) : number_free (error_object m).
Proof. rewrite error_object_eq; repeat constructor. Qed.

Lemma error_response_status (e : Thrown) : status (error_response e) = 200.
Proof. reflexivity. Qed.

Lemma error_response_body (e : Thrown) :
  body (error_response e)
  = JSON_stringify 2 (JObject [(lit "error", JString (error_message e))]).
Proof. reflexivity. Qed.

Lemma error_response_parses (e : Thrown) :
  JSON_parse (body (error_response e))
  = Returns (JObject [(lit "error", JString (error_message e))]).
Proof.
  rewrite error_response_body, <- error_object_eq.
  apply parse_stringify;
    [apply error_object_number_free | apply error_object_normal].
Qed.

(** The indented text of an error body. *)
Lemma error_response_text (e : Thrown) :
  body (error_response e)
  = lit "{" ++ [10] ++ qlit "  'error': "
      ++ QuoteJSONString (error_message e) ++ [10] ++ lit "}".
Proof.
  rewrite error_response_body.
  unfold JSON_stringify; cbn -[QuoteJSONString].
  rewrite <- !app_assoc. reflexivity.
Qed.

Lemma getRecipeFromAI_failure openai (foodName : jsstring) (e : Thrown) :
  foodName <> [] ->
  recipe_failure openai foodName e ->
  getRecipeFromAI openai (Some foodName) = Returns (error_response e).
Proof.
  intros Hne Hfail; destruct foodName as [|c name]; [contradiction|].
  cbn [getRecipeFromAI].
  destruct Hfail as [e Hcall
                    |completion Hcall Hch
                    |completion choice rest Hcall Hch Hlen
                    |completion choice rest Hcall Hch Hlen Href
                    |completion choice rest Hcall Hch Hlen Href Hcont
                    |completion choice rest text e Hcall Hch Hlen Href Hcont
                       Htext Hparse];
    rewrite Hcall; cbn [bind try_catch]; try rewrite Hch;
    cbn [bind try_catch]; try reflexivity.
  - rewrite Hlen, str_eqb_refl. reflexivity.
  - apply str_eqb_neq in Hlen; rewrite Hlen, Href. reflexivity.
  - apply str_eqb_neq in Hlen; rewrite Hlen, Href.
    destruct (content (message choice)) as [[|d text]|];
      try discriminate; reflexivity.
  - apply str_eqb_neq in Hlen; rewrite Hlen, Href, Hcont.
    destruct text as [|d text]; [contradiction|].
    rewrite Hparse. reflexivity.
Qed.

Lemma getImageFromWeb_failure (foodOrIngName : jsstring) env (e : Thrown) :
  foodOrIngName <> [] ->
  image_failure foodOrIngName env e ->
  getImageFromWeb (Some foodOrIngName) env = Returns (error_response e).
Proof.
  intros Hne Hfail; destruct foodOrIngName as [|c name]; [contradiction|].
  cbn [getImageFromWeb].
  destruct Hfail as [e Henc
                    |query e Henc Hfetch
                    |query response Henc Hfetch Hok
                    |query response e Henc Hfetch Hok Hjson
                    |query response data Henc Hfetch Hok Hjson Hitems];
    rewrite Henc; cbn [bind try_catch]; try reflexivity;
    rewrite Hfetch; cbn [bind try_catch]; try reflexivity;
    rewrite Hok; cbn [negb bind try_catch]; try reflexivity;
    rewrite Hjson; cbn [bind try_catch]; try reflexivity.
  destruct Hitems as [-> | ->]; reflexivity.
Qed.

Lemma getRecipeFromAI_total openai (foodName : option jsstring) :
  exists r, getRecipeFromAI openai foodName = Returns r.
Proof.
  destruct foodName as [[|c name]|]; cbn [getRecipeFromAI]; eauto.
  destruct (chat_completions_create openai (recipe_request (c :: name)))
    as [completion|e]; cbn [bind try_catch]; eauto.
  destruct (choices completion) as [|choice rest]; cbn [try_catch]; eauto.
  destruct (finish_reason choice === lit "length"); cbn [try_catch]; eauto.
  destruct (truthy (refusal (message choice))); cbn [try_catch]; eauto.
  destruct (content (message choice)) as [[|d text]|];
    cbn [try_catch]; eauto.
  destruct (JSON_parse (d :: text)); cbn [bind try_catch]; eauto.
Qed.

Lemma getImageFromWeb_total (foodOrIngName : option jsstring) env :
  exists r, getImageFromWeb foodOrIngName env = Returns r.
Proof.
  destruct foodOrIngName as [[|c name]|]; cbn [getImageFromWeb]; eauto.
  destruct (encodeURIComponent (c :: name)) as [query|e];
    cbn [bind try_catch]; eauto.
  destruct (node_fetch (search_url env query)) as [response|e];
    cbn [bind try_catch]; eauto.
  destruct (ok response); cbn [negb bind try_catch]; eauto.
  destruct (json response) as [data|e]; cbn [bind try_catch]; eauto.
  destruct (items data) as [[|first rest]|]; cbn [try_catch]; eauto.
Qed.

(** The router keeps the handler's body, sets the cross-origin headers and
    nothing else. *)
Lemma rewrap_status (r : Response) : status (rewrap r) = 200.
Proof. reflexivity. Qed.

Lemma rewrap_body (r : Response) : body (rewrap r) = body r.
Proof. reflexivity. Qed.

Lemma rewrap_headers (r : Response) :
  headers (rewrap r)
  = [(lit "access-control-allow-origin", lit "*");
     (lit "access-control-allow-methods", lit "GET,HEAD,POST,OPTIONS");
     (lit "access-control-allow-headers", lit "Content-Type")].
Proof. reflexivity. Qed.

Lemma rewrap_cors (r : Response) : has_cors_headers (rewrap r).
Proof. repeat split. Qed.

Lemma rewrap_content_type (r : Response) :
  headers_get (headers (rewrap r)) (lit "Content-Type") = None.
Proof. reflexivity. Qed.

(** Every response a handler builds names its content type. *)
Lemma getRecipeFromAI_content_type openai (foodName : option jsstring) r :
  getRecipeFromAI openai foodName = Returns r ->
  headers_get (headers r) (lit "Content-Type") = Some (lit "application/json").
Proof.
  destruct foodName as [[|c name]|]; cbn [getRecipeFromAI];
    try (intros H; inversion H; reflexivity).
  destruct (chat_completions_create openai (recipe_request (c :: name)))
    as [completion|e]; cbn [bind try_catch];
    try (intros H; inversion H; reflexivity).
  destruct (choices completion) as [|choice rest]; cbn [try_catch];
    try (intros H; inversion H; reflexivity).
  destruct (finish_reason choice === lit "length"); cbn [try_catch];
    try (intros H; inversion H; reflexivity).
  destruct (truthy (refusal (message choice))); cbn [try_catch];
    try (intros H; inversion H; reflexivity).
  destruct (content (message choice)) as [[|d text]|]; cbn [try_catch];
    try (intros H; inversion H; reflexivity).
  destruct (JSON_parse (d :: text)); cbn [bind try_catch];
    intros H; inversion H; reflexivity.
Qed.

Lemma getImageFromWeb_content_type (foodOrIngName : option jsstring) env r :
  getImageFromWeb foodOrIngName env = Returns r ->
  headers_get (headers r) (lit "Content-Type") = Some (lit "application/json").
Proof.
  destruct foodOrIngName as [[|c name]|]; cbn [getImageFromWeb];
    try (intros H; inversion H; reflexivity).
  destruct (encodeURIComponent (c :: name)) as [query|e];
    cbn [bind try_catch]; try (intros H; inversion H; reflexivity).
  destruct (node_fetch (search_url env query)) as [response|e];
    cbn [bind try_catch]; try (intros H; inversion H; reflexivity).
  destruct (ok response); cbn [negb bind try_catch];
    try (intros H; inversion H; reflexivity).
  destruct (json response) as [data|e]; cbn [bind try_catch];
    try (intros H; inversion H; reflexivity).
  destruct (items data) as [[|first rest]|]; cbn [try_catch];
    intros H; inversion H; reflexivity.
Qed.

(** The [try] block of a handler either throws, in one of the listed ways,
    or the handler returns its success response. *)
Lemma getRecipeFromAI_outcomes openai (foodName : jsstring) :
  foodName <> [] ->
  (exists e, recipe_failure openai foodName e)
  \/ exists completion choice rest text v,
      chat_completions_create openai (recipe_request foodName)
        = Returns completion
      /\ choices completion = choice :: rest
      /\ content (message choice) = Some text
      /\ JSON_parse text = Returns v
      /\ getRecipeFromAI openai (Some foodName)
         = Returns
             (new_Response (BodyString (JSON_stringify 2 v))
                {| init_status := None; init_headers := json_content_type |}).
Proof.
  intros Hne; destruct foodName as [|c name]; [contradiction|].
  cbn [getRecipeFromAI].
  destruct (chat_completions_create openai (recipe_request (c :: name)))
    as [completion|e] eqn:Hcall;
    [|left; exists e; apply recipe_call_throws; exact Hcall].
  destruct (choices completion) as [|choice rest] eqn:Hch;
    [left; eexists; eapply recipe_no_choice; eassumption|].
  destruct (str_eqb_spec (finish_reason choice) (lit "length")) as [Hlen|Hlen];
    [left; eexists; eapply recipe_truncated; eassumption|].
  destruct (truthy (refusal (message choice))) eqn:Href;
    [left; eexists; eapply recipe_refused; eassumption|].
  destruct (content (message choice)) as [text|] eqn:Hcont;
    [|left; eexists; eapply recipe_no_content; try eassumption;
      rewrite Hcont; reflexivity].
  destruct text as [|d text];
    [left; eexists; eapply recipe_no_content; try eassumption;
     rewrite Hcont; reflexivity|].
  destruct (JSON_parse (d :: text)) as [v|e] eqn:Hparse.
  - right; exists completion, choice, rest, (d :: text), v.
    cbn [bind try_catch]. repeat split; try assumption.
    apply str_eqb_neq in Hlen.
    rewrite Hch, Hlen, Href, Hcont, Hparse. reflexivity.
  - left; exists e; eapply recipe_parse_throws; try eassumption.
    discriminate.
Qed.

Lemma getImageFromWeb_outcomes (foodOrIngName : jsstring) env :
  foodOrIngName <> [] ->
  (exists e, image_failure foodOrIngName env e)
  \/ exists query response data first rest,
      encodeURIComponent foodOrIngName = Returns query
      /\ node_fetch (search_url env query) = Returns response
      /\ ok response = true
      /\ json response = Returns data
      /\ items data = Some (first :: rest)
      /\ getImageFromWeb (Some foodOrIngName) env
         = Returns
             (new_Response
                (BodyString
                   (JSON_stringify 2
                      (JObject
                         [(lit "url", JString (link first));
                          (lit "thumb", JString (thumbnailLink (image first)))])))
                {| init_status := None; init_headers := json_content_type |}).
Proof.
  intros Hne; destruct foodOrIngName as [|c name]; [contradiction|].
  cbn [getImageFromWeb].
  destruct (encodeURIComponent (c :: name)) as [query|e] eqn:Henc;
    [|left; exists e; apply image_encode_throws; exact Henc].
  destruct (node_fetch (search_url env query)) as [response|e] eqn:Hfetch;
    [|left; exists e; eapply image_fetch_throws; eassumption].
  destruct (ok response) eqn:Hok;
    [|left; eexists; eapply image_upstream_error; eassumption].
  destruct (json response) as [data|e] eqn:Hjson;
    [|left; exists e; eapply image_json_throws; eassumption].
  destruct (items data) as [[|first rest]|] eqn:Hitems.
  - left; eexists; eapply image_no_results; eauto.
  - right; exists query, response, data, first, rest.
    repeat split; try assumption.
    cbn [bind try_catch]; rewrite ?Hfetch; cbn [bind try_catch].
    rewrite ?Hok; cbn [negb]; rewrite ?Hjson; cbn [bind try_catch].
    rewrite ?Hitems. reflexivity.
  - left; eexists; eapply image_no_results; eauto.
Qed.

(** ** The Recipe shape *)

Lemma obj_get_Forall {V} (P : V -> Prop) (k : jsstring) (o : props V) v :
  Forall (fun kv => P (snd kv)) o -> obj_get k o = Some v -> P v.
Proof.
  induction 1 as [|[k' v'] o Hkv Ho IH]; cbn [obj_get]; [discriminate|].
  destruct (k === k'); [|exact IH].
  intros H; inversion H; subst; exact Hkv.
Qed.

Lemma conforms_number_free (v : JValue) :
  forall s, textual_schema s -> conforms s v = true -> number_free v.
Proof.
  induction v as [|b|n|t|vs IH|kvs IH] using JValue_ind;
    intros s Hs Hc; try (constructor; fail).
  - exfalso; cbn [conforms] in Hc.
    inversion Hs as [? Ht|? ? Ht|? ? Ht]; subst; rewrite Ht in Hc;
      discriminate.
  - constructor. cbn [conforms] in Hc.
    apply andb_prop in Hc as [Ht Hc]; apply str_eqb_eq in Ht.
    inversion Hs as [? Ht'|? item Ht' Hitem Hs'|? ps Ht']; subst;
      try (rewrite Ht' in Ht; discriminate).
    rewrite Hitem in Hc. rewrite forallb_forall in Hc.
    rewrite Forall_forall in IH |- *. intros x Hx; eauto.
  - constructor. cbn [conforms] in Hc.
    apply andb_prop in Hc as [Hc Hmem]; apply andb_prop in Hc as [Ht _].
    apply str_eqb_eq in Ht.
    inversion Hs as [? Ht'|? item Ht'|? ps Ht' Hps Hadd Hall]; subst;
      try (rewrite Ht' in Ht; discriminate).
    rewrite Hps, Hadd in Hmem. rewrite forallb_forall in Hmem.
    rewrite Forall_forall in IH |- *. intros kv Hkv.
    specialize (Hmem kv Hkv); cbv beta in Hmem.
    destruct (obj_get (fst kv) ps) as [p|] eqn:Hp; [|discriminate].
    eapply IH; [exact Hkv| |exact Hmem].
    eapply (obj_get_Forall textual_schema); eassumption.
Qed.

Ltac textual :=
  first
    [ apply textual_string; reflexivity
    | eapply textual_array; [reflexivity | reflexivity | textual]
    | eapply textual_object;
      [reflexivity | reflexivity | reflexivity
      | repeat (apply Forall_cons; [cbn [snd]; textual|]);
        apply Forall_nil ] ].

Lemma recipe_schema_textual : textual_schema recipe_schema.
Proof. textual. Qed.

Lemma conforms_recipe_number_free (v : JValue) :
  conforms recipe_schema v = true -> number_free v.
Proof. apply conforms_number_free, recipe_schema_textual. Qed.

Ltac key_order :=
  repeat (apply key_order_cons;
          [ cbn [In]; intuition discriminate
          | repeat (apply Forall_cons; [reflexivity|]); apply Forall_nil
          | ]);
  apply key_order_nil.

Lemma json_of_ingredient_normal (i : Ingredient) :
  normal (json_of_ingredient i).
Proof.
  constructor; cbn [map fst]; [key_order | repeat constructor].
Qed.

Lemma json_of_recipe_normal (r : Recipe) : normal (json_of_recipe r).
Proof.
  constructor; cbn [map fst]; [key_order|].
  repeat (apply Forall_cons; [cbn [snd]|]); try apply Forall_nil;
    constructor.
  - apply Forall_forall; intros x Hx; apply in_map_iff in Hx as [i [<- _]].
    apply json_of_ingredient_normal.
  - apply Forall_forall; intros x Hx; apply in_map_iff in Hx as [s [<- _]].
    constructor.
Qed.

Lemma conforms_elements (s item : JValue) {A} (f : A -> JValue) (l : list A) :
  schema_type s = lit "array" ->
  member (lit "items") s = Some item ->
  (forall x, conforms item (f x) = true) ->
  conforms s (JArray (map f l)) = true.
Proof.
  intros Ht Hitem Hf; cbn [conforms]; rewrite Ht, Hitem.
  apply andb_true_intro; split; [reflexivity|].
  rewrite forallb_forall; intros x Hx.
  apply in_map_iff in Hx as [y [<- _]]; apply Hf.
Qed.

Lemma json_of_recipe_conforms (r : Recipe) :
  conforms recipe_schema (json_of_recipe r) = true.
Proof.
  destruct r as [n d ings steps].
  unfold json_of_recipe; cbn [recipe_name recipe_description ingredients
                              instructions].
  assert (Hings : forall s item,
             schema_type s = lit "array" ->
             member (lit "items") s = Some item ->
             (forall i, conforms item (json_of_ingredient i) = true) ->
             conforms s (JArray (map json_of_ingredient ings)) = true)
    by (intros; eapply conforms_elements; eassumption).
  assert (Hsteps : forall s item,
             schema_type s = lit "array" ->
             member (lit "items") s = Some item ->
             (forall t, conforms item (JString t) = true) ->
             conforms s (JArray (map JString steps)) = true)
    by (intros; eapply conforms_elements; eassumption).
  generalize dependent (JArray (map json_of_ingredient ings)).
  generalize dependent (JArray (map JString steps)).
  intros stepv Hsteps ingv Hings.
  cbn [conforms].
  repeat (apply andb_true_intro; split); try reflexivity.
  cbn [forallb fst snd].
  repeat (apply andb_true_intro; split); try reflexivity.
  - eapply Hings; reflexivity.
  - eapply Hsteps; reflexivity.
Qed.

Lemma traverse_map {A B} (f : B -> option A) (g : A -> B) (l : list A) :
  (forall x, f (g x) = Some x) -> traverse f (map g l) = Some l.
Proof.
  intros H; induction l as [|x l IH]; cbn [map traverse]; [reflexivity|].
  rewrite H, IH; reflexivity.
Qed.

Lemma recipe_of_json_of_recipe (r : Recipe) :
  recipe_of_json (json_of_recipe r) = Some r.
Proof.
  destruct r as [n d ings steps].
  change (recipe_of_json
            (json_of_recipe
               {| recipe_name := n; recipe_description := d;
                  ingredients := ings; instructions := steps |}))
    with (match traverse ingredient_of_json (map json_of_ingredient ings),
                traverse string_of_json (map JString steps) with
          | Some xs, Some ss =>
              Some {| recipe_name := n; recipe_description := d;
                      ingredients := xs; instructions := ss |}
          | _, _ => None
          end).
  rewrite (traverse_map ingredient_of_json json_of_ingredient)
    by (intros [? ? ?]; reflexivity).
  rewrite (traverse_map string_of_json JString) by reflexivity.
  reflexivity.
Qed.

(** ** The router *)

Lemma fetch_getRecipe (request : Request) (env : Env) openai :
  pathname (url request) = lit "/getRecipe" ->
  new_client env = Returns openai ->
  fetch request env
  = (response <- getRecipeFromAI openai
                   (searchParams_get (url request) (lit "foodName")) ;;
     Returns (rewrap response)).
Proof. intros H Hc; unfold fetch; rewrite H, Hc; reflexivity. Qed.

(** The client is built outside every [try]: what its constructor throws,
    the worker throws. *)
Lemma fetch_getRecipe_throws (request : Request) (env : Env) e :
  pathname (url request) = lit "/getRecipe" ->
  new_client env = Throws e ->
  fetch request env = Throws e.
Proof. intros H Hc; unfold fetch; rewrite H, Hc; reflexivity. Qed.

Lemma fetch_getImage (request : Request) (env : Env) :
  pathname (url request) = lit "/getImage" ->
  fetch request env
  = (response <- getImageFromWeb
                   (searchParams_get (url request) (lit "foodOrIngName")) env ;;
     Returns (rewrap response)).
Proof. intros H; unfold fetch; rewrite H; reflexivity. Qed.

Lemma falsy_cases (s : option jsstring) :
  truthy s = false -> s = None \/ s = Some [].
Proof. destruct s as [[|c s]|]; cbn [truthy]; auto; discriminate. Qed.

Lemma getRecipeFromAI_missing openai (foodName : option jsstring) :
  truthy foodName = false ->
  getRecipeFromAI openai foodName
  = Returns
      {| status := 400;
         headers := [(lit "content-type", lit "application/json")];
         body := qlit "{'error':'foodName parameter is required'}" |}.
Proof. intros H; destruct (falsy_cases _ H) as [-> | ->]; reflexivity. Qed.

Lemma getImageFromWeb_missing (foodOrIngName : option jsstring) env :
  truthy foodOrIngName = false ->
  getImageFromWeb foodOrIngName env
  = Returns
      {| status := 400;
         headers := [(lit "content-type", lit "application/json")];
         body := qlit "{'error':'foodOrIngName parameter is required'}" |}.
Proof. intros H; destruct (falsy_cases _ H) as [-> | ->]; reflexivity. Qed.

(** The single-endpoint variant hands the 400 response to the caller as it
    is, once its client is built. *)
Lemma single_fetch_missing (request : Request) (env : Env) openai :
  new_client env = Returns openai ->
  truthy (searchParams_get (url request) (lit "foodName")) = false ->
  single_fetch request env
  = Returns
      {| status := 400;
         headers := [(lit "content-type", lit "application/json")];
         body := qlit "{'error':'foodName parameter is required'}" |}.
Proof.
  intros Hc H; unfold single_fetch; rewrite Hc; cbn [bind].
  destruct (falsy_cases _ H) as [-> | ->]; reflexivity.
Qed.

(** The single-endpoint variant returns what it builds, content type
    included. *)
Lemma single_fetch_content_type (request : Request) (env : Env) r :
  single_fetch request env = Returns r ->
  headers_get (headers r) (lit "Content-Type") = Some (lit "application/json").
Proof.
  unfold single_fetch.
  destruct (new_client env) as [openai|e]; cbn [bind]; [|discriminate].
  destruct (searchParams_get (url request) (lit "foodName")) as [[|c name]|];
    try (intros H; inversion H; reflexivity).
  destruct (single_getRecipeFromAI openai (c :: name));
    cbn [bind]; intros H; inversion H; reflexivity.
Qed.

(** ** The claims *)

(** Claim C1.  For a request to /getRecipe whose foodName parameter is absent
    or empty, with the client built, getRecipeFromAI answers with status 400
    and the body {"error":"foodName parameter is required"}; the router
    hands that body on, but in a response of status 200: the 400 does not
    reach the caller. *)
Theorem C1_missing_foodName_routed (request : Request) (env : Env) openai :
  pathname (url request) = lit "/getRecipe" ->
  new_client env = Returns openai ->
  truthy (searchParams_get (url request) (lit "foodName")) = false ->
  exists handled routed,
    getRecipeFromAI openai
      (searchParams_get (url request) (lit "foodName")) = Returns handled
    /\ status handled = 400
    /\ body handled = qlit "{'error':'foodName parameter is required'}"
    /\ fetch request env = Returns routed
    /\ body routed = qlit "{'error':'foodName parameter is required'}"
    /\ status routed = 200.
Proof.
  intros Hpath Hclient Hfood.
  rewrite (fetch_getRecipe _ _ _ Hpath Hclient),
    (getRecipeFromAI_missing _ _ Hfood).
  do 2 eexists; repeat split.
Qed.

(** Claim C9.  For a request to /getImage whose foodOrIngName parameter is
    absent or empty, getImageFromWeb answers with status 400 and the body
    {"error":"foodOrIngName parameter is required"}; the router hands that
    body on, but in a response of status 200. *)
Theorem C9_missing_foodOrIngName_routed (request : Request) (env : Env) :
  pathname (url request) = lit "/getImage" ->
  truthy (searchParams_get (url request) (lit "foodOrIngName")) = false ->
  exists handled routed,
    getImageFromWeb (searchParams_get (url request) (lit "foodOrIngName")) env
      = Returns handled
    /\ status handled = 400
    /\ body handled = qlit "{'error':'foodOrIngName parameter is required'}"
    /\ fetch request env = Returns routed
    /\ body routed = qlit "{'error':'foodOrIngName parameter is required'}"
    /\ status routed = 200.
Proof.
  intros Hpath Hq.
  rewrite (fetch_getImage _ _ Hpath), (getImageFromWeb_missing _ _ Hq).
  do 2 eexists; repeat split.
Qed.

(** Claim C10.  Every response the router returns for /getRecipe and
    /getImage has status 200.  On /getImage, and on /getRecipe once the
    client is built, the router does return: the handler's response rebuilt
    from its body, with status 200 whatever the handler's status was; on a
    missing parameter the handler's status is 400.  On /getRecipe the client
    is built outside every try, and when its constructor throws the router
    returns no response at all. *)
Theorem C10_routed_status_200 (request : Request) (env : Env) :
  pathname (url request) = lit "/getRecipe"
  \/ pathname (url request) = lit "/getImage" ->
  (forall r, fetch request env = Returns r -> status r = 200)
  /\ (forall openai,
         (pathname (url request) = lit "/getRecipe" ->
          new_client env = Returns openai) ->
         exists handled routed,
           (if pathname (url request) === lit "/getRecipe" then
              getRecipeFromAI openai
                (searchParams_get (url request) (lit "foodName"))
            else
              getImageFromWeb
                (searchParams_get (url request) (lit "foodOrIngName")) env)
           = Returns handled
           /\ fetch request env = Returns routed
           /\ routed = rewrap handled
           /\ body routed = body handled
           /\ status routed = 200
           /\ (truthy
                 (searchParams_get (url request)
                    (if pathname (url request) === lit "/getRecipe"
                     then lit "foodName" else lit "foodOrIngName")) = false ->
               status handled = 400))
  /\ (forall e,
         pathname (url request) = lit "/getRecipe" ->
         new_client env = Throws e ->
         fetch request env = Throws e).
Proof.
  intros Hpaths; split; [|split].
  - intros r; unfold fetch. destruct Hpaths as [Hpath | Hpath]; rewrite Hpath.
    + change (lit "/getRecipe" === lit "/getRecipe") with true; cbn iota.
      destruct (new_client env) as [openai|e]; cbn [bind]; [|discriminate].
      destruct (getRecipeFromAI openai
                  (searchParams_get (url request) (lit "foodName")));
        cbn [bind]; intros H; inversion H; reflexivity.
    + change (lit "/getImage" === lit "/getRecipe") with false.
      change (lit "/getImage" === lit "/getImage") with true; cbn iota.
      destruct (getImageFromWeb
                  (searchParams_get (url request) (lit "foodOrIngName")) env);
        cbn [bind]; intros H; inversion H; reflexivity.
  - intros openai Hclient. destruct Hpaths as [Hpath | Hpath].
    + rewrite (fetch_getRecipe _ _ _ Hpath (Hclient Hpath)), Hpath.
      change (lit "/getRecipe" === lit "/getRecipe") with true; cbn iota.
      destruct (getRecipeFromAI_total openai
                  (searchParams_get (url request) (lit "foodName")))
        as [handled Hh].
      exists handled, (rewrap handled); rewrite Hh; repeat split.
      intros Hfood; rewrite (getRecipeFromAI_missing _ _ Hfood) in Hh.
      inversion Hh; reflexivity.
    + rewrite (fetch_getImage _ _ Hpath), Hpath.
      change (lit "/getImage" === lit "/getRecipe") with false; cbn iota.
      destruct (getImageFromWeb_total
                  (searchParams_get (url request) (lit "foodOrIngName")) env)
        as [handled Hh].
      exists handled, (rewrap handled); rewrite Hh; repeat split.
      intros Hq; rewrite (getImageFromWeb_missing _ _ Hq) in Hh.
      inversion Hh; reflexivity.
  - intros e Hpath Hclient; apply fetch_getRecipe_throws; assumption.
Qed.

(** Claim C8.  Every response of the router carries the three cross-origin
    headers (on /getRecipe the router returns once the client is built).
    The handlers put Content-Type: application/json on their JSON bodies,
    but the response the router builds for /getRecipe and /getImage has no
    Content-Type at all: spreading the handler's Headers instance copies
    nothing. *)
Theorem C8_routed_headers (request : Request) (env : Env) :
  (pathname (url request) = lit "/getRecipe" ->
   exists openai, new_client env = Returns openai) ->
  exists routed,
    fetch request env = Returns routed
    /\ has_cors_headers routed
    /\ if (pathname (url request) === lit "/getRecipe")
          || (pathname (url request) === lit "/getImage")
       then
         headers_get (headers routed) (lit "Content-Type") = None
         /\ exists handled,
             routed = rewrap handled
             /\ headers_get (headers handled) (lit "Content-Type")
                = Some (lit "application/json")
       else
         status routed = 404
         /\ body routed = lit "Not found"
         /\ headers_get (headers routed) (lit "Content-Type")
            = Some (lit "text/plain;charset=UTF-8").
Proof.
  intros Hclient; unfold fetch.
  destruct (str_eqb_spec (pathname (url request)) (lit "/getRecipe"))
    as [Hrecipe|Hrecipe];
    [|destruct (pathname (url request) === lit "/getImage") eqn:Himage];
    cbn [orb].
  - destruct (Hclient Hrecipe) as [openai Hopenai]; rewrite Hopenai.
    cbn [bind].
    destruct (getRecipeFromAI_total openai
                (searchParams_get (url request) (lit "foodName")))
      as [handled Hh].
    rewrite Hh; cbn [bind]. exists (rewrap handled).
    repeat split. exists handled; split; [reflexivity|].
    eapply getRecipeFromAI_content_type; exact Hh.
  - destruct (getImageFromWeb_total
                (searchParams_get (url request) (lit "foodOrIngName")) env)
      as [handled Hh].
    rewrite Hh; cbn [bind]. exists (rewrap handled).
    repeat split. exists handled; split; [reflexivity|].
    eapply getImageFromWeb_content_type; exact Hh.
  - eexists; repeat split.
Qed.

(** Claim C3.  When the first choice of the completion reports the finish
    reason "length", getRecipeFromAI answers with the error body whose
    message is "Incomplete response", whatever refusal and content the
    message carries: the check comes before the refusal check and before
    the content is parsed, and no part of the content is returned. *)
Theorem C3_truncated_completion openai (foodName : jsstring) completion choice
    rest :
  foodName <> [] ->
  chat_completions_create openai (recipe_request foodName)
    = Returns completion ->
  choices completion = choice :: rest ->
  finish_reason choice = lit "length" ->
  exists r,
    getRecipeFromAI openai (Some foodName) = Returns r
    /\ JSON_parse (body r)
       = Returns (JObject [(lit "error", JString (lit "Incomplete response"))])
    /\ body r
       = lit "{" ++ [10] ++ qlit "  'error': 'Incomplete response'" ++ [10]
           ++ lit "}"
    /\ includes (body r) (lit "Incomplete response").
Proof.
  intros Hne Hcall Hch Hlen.
  exists (error_response (ThrownError (lit "Incomplete response"))).
  split; [|split; [|split]].
  - apply getRecipeFromAI_failure; [exact Hne|].
    eapply recipe_truncated; eassumption.
  - apply error_response_parses.
  - reflexivity.
  - exists (lit "{" ++ [10] ++ qlit "  'error': '"),
           (qlit "'" ++ [10] ++ lit "}").
    reflexivity.
Qed.

(** Claim C7.  When the completion is not truncated and its message carries a
    refusal, getRecipeFromAI answers with the error body whose message is
    "Model refused to provide a recipe", whatever the content of the
    message: the content is neither parsed nor returned. *)
Theorem C7_refused_completion openai (foodName : jsstring) completion choice
    rest :
  foodName <> [] ->
  chat_completions_create openai (recipe_request foodName)
    = Returns completion ->
  choices completion = choice :: rest ->
  finish_reason choice <> lit "length" ->
  truthy (refusal (message choice)) = true ->
  exists r,
    getRecipeFromAI openai (Some foodName) = Returns r
    /\ JSON_parse (body r)
       = Returns
           (JObject
              [(lit "error", JString (lit "Model refused to provide a recipe"))])
    /\ body r
       = lit "{" ++ [10] ++ qlit "  'error': 'Model refused to provide a recipe'"
           ++ [10] ++ lit "}"
    /\ includes (body r) (lit "Model refused to provide a recipe").
Proof.
  intros Hne Hcall Hch Hlen Href.
  exists (error_response
            (ThrownError (lit "Model refused to provide a recipe"))).
  split; [|split; [|split]].
  - apply getRecipeFromAI_failure; [exact Hne|].
    eapply recipe_refused; eassumption.
  - apply error_response_parses.
  - reflexivity.
  - exists (lit "{" ++ [10] ++ qlit "  'error': '"),
           (qlit "'" ++ [10] ++ lit "}").
    reflexivity.
Qed.

(** Claim C4.  When the completion carries content that parses to a value of
    the Recipe schema (no truncation, no refusal), the body of
    getRecipeFromAI's response is the indented text of that value, and
    parsing the body gives the same value again, arrays in the same order.
    Every Recipe value conforms to the schema and is read back from its
    text unchanged. *)
Theorem C4_recipe_round_trip :
  (forall openai (foodName : jsstring) completion choice rest text v,
      foodName <> [] ->
      chat_completions_create openai (recipe_request foodName)
        = Returns completion ->
      choices completion = choice :: rest ->
      finish_reason choice <> lit "length" ->
      truthy (refusal (message choice)) = false ->
      content (message choice) = Some text ->
      JSON_parse text = Returns v ->
      conforms recipe_schema v = true ->
      exists r,
        getRecipeFromAI openai (Some foodName) = Returns r
        /\ status r = 200
        /\ body r = JSON_stringify 2 v
        /\ JSON_parse (body r) = Returns v)
  /\ (forall recipe : Recipe,
        conforms recipe_schema (json_of_recipe recipe) = true
        /\ JSON_parse (JSON_stringify 2 (json_of_recipe recipe))
           = Returns (json_of_recipe recipe)
        /\ recipe_of_json (json_of_recipe recipe) = Some recipe).
Proof.
  split.
  - intros openai foodName completion choice rest text v
      Hne Hcall Hch Hlen Href Hcont Hparse Hconf.
    destruct foodName as [|c name]; [contradiction|].
    pose proof (JSON_parse_nonempty _ _ Hparse) as Htext.
    destruct text as [|d text]; [contradiction|].
    apply str_eqb_neq in Hlen.
    eexists; split; [|split; [|split]].
    + cbn [getRecipeFromAI]. rewrite Hcall; cbn [bind try_catch].
      rewrite Hch, Hlen, Href, Hcont, Hparse. reflexivity.
    + reflexivity.
    + reflexivity.
    + cbn [body new_Response].
      apply (parse_stringify_parse 2 (d :: text)); [exact Hparse|].
      apply conforms_recipe_number_free; exact Hconf.
  - intros recipe; split; [|split].
    + apply json_of_recipe_conforms.
    + apply parse_stringify; [|apply json_of_recipe_normal].
      apply conforms_recipe_number_free, json_of_recipe_conforms.
    + apply recipe_of_json_of_recipe.
Qed.


(** Claim C6.  For a non-empty query whose search request is answered with a
    success status and at least one item, the body of getImageFromWeb's
    response is the JSON object with url the first item's link and thumb the
    first item's image.thumbnailLink, and the router's response for
    /getImage carries that body with status 200. *)
Theorem C6_first_image (request : Request) (foodOrIngName : jsstring) env
    query response data first rest :
  pathname (url request) = lit "/getImage" ->
  searchParams_get (url request) (lit "foodOrIngName") = Some foodOrIngName ->
  foodOrIngName <> [] ->
  encodeURIComponent foodOrIngName = Returns query ->
  node_fetch (search_url env query) = Returns response ->
  ok response = true ->
  json response = Returns data ->
  items data = Some (first :: rest) ->
  let result :=
    JObject [(lit "url", JString (link first));
             (lit "thumb", JString (thumbnailLink (image first)))] in
  exists handled routed,
    getImageFromWeb (Some foodOrIngName) env = Returns handled
    /\ body handled = JSON_stringify 2 result
    /\ JSON_parse (body handled) = Returns result
    /\ fetch request env = Returns routed
    /\ body routed = body handled
    /\ status routed = 200.
Proof.
  intros Hpath Hq Hne Henc Hfetch Hok Hjson Hitems result.
  assert (Hh : getImageFromWeb (Some foodOrIngName) env
               = Returns
                   (new_Response (BodyString (JSON_stringify 2 result))
                      {| init_status := None;
                         init_headers := json_content_type |})).
  { destruct foodOrIngName as [|c name]; [contradiction|].
    cbn [getImageFromWeb]. rewrite Henc; cbn [bind try_catch].
    rewrite Hfetch; cbn [bind try_catch]. rewrite Hok; cbn [negb].
    rewrite Hjson; cbn [bind try_catch]. rewrite Hitems. reflexivity. }
  do 2 eexists; split; [exact Hh|]. split; [reflexivity|]. split.
  - cbn [body new_Response]. apply parse_stringify.
    + repeat constructor.
    + constructor; cbn [map fst]; [|repeat constructor].
      repeat (apply key_order_cons;
              [cbn [In]; intuition discriminate
              |repeat (apply Forall_cons; [reflexivity|]); apply Forall_nil|]).
      apply key_order_nil.
  - rewrite (fetch_getImage _ _ Hpath), Hq, Hh. repeat split.
Qed.

(** Claim C2.  Neither handler ever throws.  Whatever the [try] block of a
    handler throws - the outbound call failing, the content failing to
    parse, or any failure the handler raises itself - the handler returns
    the response whose body is the JSON object with the one member error,
    holding the message of an Error and "An unknown error occurred" for any
    other thrown value; when the block does not throw, the handler returns
    its success response. *)
Theorem C2_failures_become_error_bodies :
  (forall openai foodName, exists r, getRecipeFromAI openai foodName = Returns r)
  /\ (forall foodOrIngName env,
         exists r, getImageFromWeb foodOrIngName env = Returns r)
  /\ (forall openai (foodName : jsstring) e,
         foodName <> [] ->
         recipe_failure openai foodName e ->
         getRecipeFromAI openai (Some foodName) = Returns (error_response e))
  /\ (forall (foodOrIngName : jsstring) env e,
         foodOrIngName <> [] ->
         image_failure foodOrIngName env e ->
         getImageFromWeb (Some foodOrIngName) env
         = Returns (error_response e))
  /\ (forall openai (foodName : jsstring),
         foodName <> [] ->
         (exists e, recipe_failure openai foodName e)
         \/ exists v,
             getRecipeFromAI openai (Some foodName)
             = Returns
                 (new_Response (BodyString (JSON_stringify 2 v))
                    {| init_status := None;
                       init_headers := json_content_type |}))
  /\ (forall (foodOrIngName : jsstring) env,
         foodOrIngName <> [] ->
         (exists e, image_failure foodOrIngName env e)
         \/ exists v,
             getImageFromWeb (Some foodOrIngName) env
             = Returns
                 (new_Response (BodyString (JSON_stringify 2 v))
                    {| init_status := None;
                       init_headers := json_content_type |}))
  /\ (forall e,
         JSON_parse (body (error_response e))
         = Returns (JObject [(lit "error", JString (error_message e))]))
  /\ (forall message, error_message (ThrownError message) = message)
  /\ (forall v,
         error_message (ThrownValue v) = lit "An unknown error occurred").
Proof.
  repeat apply conj.
  - apply getRecipeFromAI_total.
  - apply getImageFromWeb_total.
  - apply getRecipeFromAI_failure.
  - apply getImageFromWeb_failure.
  - intros openai foodName Hne.
    destruct (getRecipeFromAI_outcomes openai foodName Hne)
      as [He | (completion & choice & rest & text & v & _ & _ & _ & _ & H)];
      [left; exact He | right; exists v; exact H].
  - intros foodOrIngName env Hne.
    destruct (getImageFromWeb_outcomes foodOrIngName env Hne)
      as [He | (query & response & data & first & rest
                & _ & _ & _ & _ & _ & H)];
      [left; exact He | right; eexists; exact H].
  - apply error_response_parses.
  - reflexivity.
  - reflexivity.
Qed.

(** ** Further properties of the worker *)

(** Property X1. A path other than the two routes gets the fixed 404
    response, with the cross-origin headers and the content type of a string
    body, whatever the method, the query and the services. *)
Theorem X1_unknown_path_not_found (request : Request) (env : Env) :
  pathname (url request) <> lit "/getRecipe" ->
  pathname (url request) <> lit "/getImage" ->
  fetch request env
  = Returns
      {| status := 404;
         headers :=
           [(lit "access-control-allow-origin", lit "*");
            (lit "access-control-allow-methods", lit "GET,HEAD,POST,OPTIONS");
            (lit "access-control-allow-headers", lit "Content-Type");
            (lit "content-type", lit "text/plain;charset=UTF-8")];
         body := lit "Not found" |}.
Proof.
  intros Hrecipe Himage; unfold fetch.
  apply str_eqb_neq in Hrecipe; apply str_eqb_neq in Himage.
  rewrite Hrecipe, Himage. reflexivity.
Qed.

Lemma getRecipeFromAI_status openai (foodName : option jsstring) r :
  getRecipeFromAI openai foodName = Returns r ->
  status r = (if truthy foodName then 200 else 400)
  /\ headers r = [(lit "content-type", lit "application/json")].
Proof.
  destruct foodName as [[|c name]|]; cbn [getRecipeFromAI truthy];
    try (intros H; inversion H; split; reflexivity).
  destruct (chat_completions_create openai (recipe_request (c :: name)))
    as [completion|e]; cbn [bind try_catch];
    try (intros H; inversion H; split; reflexivity).
  destruct (choices completion) as [|choice rest]; cbn [try_catch];
    try (intros H; inversion H; split; reflexivity).
  destruct (finish_reason choice === lit "length"); cbn [try_catch];
    try (intros H; inversion H; split; reflexivity).
  destruct (truthy (refusal (message choice))); cbn [try_catch];
    try (intros H; inversion H; split; reflexivity).
  destruct (content (message choice)) as [[|d text]|]; cbn [try_catch];
    try (intros H; inversion H; split; reflexivity).
  destruct (JSON_parse (d :: text)); cbn [bind try_catch];
    intros H; inversion H; split; reflexivity.
Qed.

Lemma getImageFromWeb_status (foodOrIngName : option jsstring) env r :
  getImageFromWeb foodOrIngName env = Returns r ->
  status r = (if truthy foodOrIngName then 200 else 400)
  /\ headers r = [(lit "content-type", lit "application/json")].
Proof.
  destruct foodOrIngName as [[|c name]|]; cbn [getImageFromWeb truthy];
    try (intros H; inversion H; split; reflexivity).
  destruct (encodeURIComponent (c :: name)) as [query|e];
    cbn [bind try_catch]; try (intros H; inversion H; split; reflexivity).
  destruct (node_fetch (search_url env query)) as [response|e];
    cbn [bind try_catch]; try (intros H; inversion H; split; reflexivity).
  destruct (ok response); cbn [negb bind try_catch];
    try (intros H; inversion H; split; reflexivity).
  destruct (json response) as [data|e]; cbn [bind try_catch];
    try (intros H; inversion H; split; reflexivity).
  destruct (items data) as [[|first rest]|]; cbn [try_catch];
    intros H; inversion H; split; reflexivity.
Qed.

(** Property X2. The response of a handler has status 400 exactly when its
    parameter is missing or empty; every other response, success or failure
    of any kind, has status 200. Its only header is the JSON content type. *)
Theorem X2_handler_status_policy :
  (forall openai foodName,
      exists r,
        getRecipeFromAI openai foodName = Returns r
        /\ status r = (if truthy foodName then 200 else 400)
        /\ headers r = [(lit "content-type", lit "application/json")])
  /\ (forall foodOrIngName env,
         exists r,
           getImageFromWeb foodOrIngName env = Returns r
           /\ status r = (if truthy foodOrIngName then 200 else 400)
           /\ headers r = [(lit "content-type", lit "application/json")]).
Proof.
  split.
  - intros openai foodName.
    destruct (getRecipeFromAI_total openai foodName) as [r Hr].
    exists r; split; [exact Hr|]. eapply getRecipeFromAI_status; exact Hr.
  - intros foodOrIngName env.
    destruct (getImageFromWeb_total foodOrIngName env) as [r Hr].
    exists r; split; [exact Hr|]. eapply getImageFromWeb_status; exact Hr.
Qed.

(** Property X3. A completion that is not truncated and carries neither a
    refusal nor content ([null] or the empty string for both) is answered
    with the error message "No response content". *)
Theorem X3_empty_completion openai (foodName : jsstring) completion choice
    rest :
  foodName <> [] ->
  chat_completions_create openai (recipe_request foodName)
    = Returns completion ->
  choices completion = choice :: rest ->
  finish_reason choice <> lit "length" ->
  truthy (refusal (message choice)) = false ->
  truthy (content (message choice)) = false ->
  exists r,
    getRecipeFromAI openai (Some foodName) = Returns r
    /\ status r = 200
    /\ JSON_parse (body r)
       = Returns (JObject [(lit "error", JString (lit "No response content"))]).
Proof.
  intros Hne Hcall Hch Hlen Href Hcont.
  exists (error_response (ThrownError (lit "No response content"))).
  split; [|split].
  - apply getRecipeFromAI_failure; [exact Hne|].
    eapply recipe_no_content; eassumption.
  - reflexivity.
  - apply error_response_parses.
Qed.

(** Property X4. A completion without any choice does not take the handler
    down: reading the first choice throws inside the [try] block, and the
    answer is the error body with the engine's TypeError message. *)
Theorem X4_no_choice openai (foodName : jsstring) completion :
  foodName <> [] ->
  chat_completions_create openai (recipe_request foodName)
    = Returns completion ->
  choices completion = [] ->
  exists r,
    getRecipeFromAI openai (Some foodName) = Returns r
    /\ status r = 200
    /\ JSON_parse (body r)
       = Returns (JObject [(lit "error", JString typeErrorMessage)]).
Proof.
  intros Hne Hcall Hch.
  exists (error_response (ThrownError typeErrorMessage)).
  split; [|split].
  - apply getRecipeFromAI_failure; [exact Hne|].
    eapply recipe_no_choice; eassumption.
  - reflexivity.
  - apply error_response_parses.
Qed.

Lemma JSON_parse_throws (text : jsstring) (e : Thrown) :
  JSON_parse text = Throws e -> e = ThrownError (syntaxErrorMessage text).
Proof.
  unfold JSON_parse.
  destruct (run ([], MValue) text) as [st|];
    [destruct (finish st)|]; intros H; inversion H; reflexivity.
Qed.

Lemma JSON_parse_whitespace (text : jsstring) :
  forallb is_ws text = true ->
  JSON_parse text = Throws (ThrownError (syntaxErrorMessage text)).
Proof.
  intros H; unfold JSON_parse.
  rewrite (run_ws text [] MValue eq_refl H). reflexivity.
Qed.

(** Property X5. Content that is not JSON (white space only, for one) is
    answered with the error body that carries the message of the SyntaxError
    [JSON.parse] raised, with status 200. *)
Theorem X5_unparsable_content openai (foodName : jsstring) completion
    choice rest text :
  foodName <> [] ->
  chat_completions_create openai (recipe_request foodName)
    = Returns completion ->
  choices completion = choice :: rest ->
  finish_reason choice <> lit "length" ->
  truthy (refusal (message choice)) = false ->
  content (message choice) = Some text ->
  text <> [] ->
  (forallb is_ws text = true \/ exists e, JSON_parse text = Throws e) ->
  exists r,
    getRecipeFromAI openai (Some foodName) = Returns r
    /\ status r = 200
    /\ JSON_parse (body r)
       = Returns (JObject [(lit "error", JString (syntaxErrorMessage text))]).
Proof.
  intros Hne Hcall Hch Hlen Href Hcont Htext Hbad.
  assert (Hparse : JSON_parse text
                   = Throws (ThrownError (syntaxErrorMessage text))).
  { destruct Hbad as [Hws | [e He]]; [apply JSON_parse_whitespace; exact Hws|].
    rewrite He; f_equal; eapply JSON_parse_throws; exact He. }
  exists (error_response (ThrownError (syntaxErrorMessage text))).
  split; [|split].
  - apply getRecipeFromAI_failure; [exact Hne|].
    eapply recipe_parse_throws; eassumption.
  - reflexivity.
  - apply error_response_parses.
Qed.

Lemma getRecipeFromAI_success openai (foodName : jsstring) completion choice
    rest text v :
  foodName <> [] ->
  chat_completions_create openai (recipe_request foodName)
    = Returns completion ->
  choices completion = choice :: rest ->
  finish_reason choice <> lit "length" ->
  truthy (refusal (message choice)) = false ->
  content (message choice) = Some text ->
  JSON_parse text = Returns v ->
  getRecipeFromAI openai (Some foodName)
  = Returns
      {| status := 200;
         headers := [(lit "content-type", lit "application/json")];
         body := JSON_stringify 2 v |}.
Proof.
  intros Hne Hcall Hch Hlen Href Hcont Hparse.
  destruct foodName as [|c name]; [contradiction|].
  pose proof (JSON_parse_nonempty _ _ Hparse) as Htext.
  destruct text as [|d text]; [contradiction|].
  apply str_eqb_neq in Hlen.
  cbn [getRecipeFromAI]. rewrite Hcall; cbn [bind try_catch].
  rewrite Hch, Hlen, Href, Hcont, Hparse. reflexivity.
Qed.

(** Property X6. The handler does not hold the content to the schema:
    whatever JSON text the completion carries is parsed, written again with
    two spaces of indentation and returned with status 200; when the value
    holds no number, the body reads back as that value. *)
Theorem X6_content_passes_unvalidated openai (foodName : jsstring) completion
    choice rest text v :
  foodName <> [] ->
  chat_completions_create openai (recipe_request foodName)
    = Returns completion ->
  choices completion = choice :: rest ->
  finish_reason choice <> lit "length" ->
  truthy (refusal (message choice)) = false ->
  content (message choice) = Some text ->
  JSON_parse text = Returns v ->
  exists r,
    getRecipeFromAI openai (Some foodName) = Returns r
    /\ status r = 200
    /\ body r = JSON_stringify 2 v
    /\ (number_free v -> JSON_parse (body r) = Returns v).
Proof.
  intros Hne Hcall Hch Hlen Href Hcont Hparse.
  eexists; split;
    [eapply getRecipeFromAI_success; eassumption|].
  cbn [status body]; repeat split.
  intros Hnf; apply parse_stringify; [exact Hnf|].
  eapply JSON_parse_normal; exact Hparse.
Qed.

(** Property X7. Writing the content again settles it: when the body the
    handler returned for one completion comes back as the content of
    another, the handler returns the same body. *)
Theorem X7_reserialization_settles openai openai'
    (foodName foodName' : jsstring) completion choice rest completion'
    choice' rest' text v r :
  foodName <> [] ->
  chat_completions_create openai (recipe_request foodName)
    = Returns completion ->
  choices completion = choice :: rest ->
  finish_reason choice <> lit "length" ->
  truthy (refusal (message choice)) = false ->
  content (message choice) = Some text ->
  JSON_parse text = Returns v ->
  number_free v ->
  getRecipeFromAI openai (Some foodName) = Returns r ->
  foodName' <> [] ->
  chat_completions_create openai' (recipe_request foodName')
    = Returns completion' ->
  choices completion' = choice' :: rest' ->
  finish_reason choice' <> lit "length" ->
  truthy (refusal (message choice')) = false ->
  content (message choice') = Some (body r) ->
  getRecipeFromAI openai' (Some foodName') = Returns r.
Proof.
  intros Hne Hcall Hch Hlen Href Hcont Hparse Hnf Hr
    Hne' Hcall' Hch' Hlen' Href' Hcont'.
  rewrite (getRecipeFromAI_success _ _ _ _ _ _ _
             Hne Hcall Hch Hlen Href Hcont Hparse) in Hr.
  inversion Hr; subst r; clear Hr. cbn [body] in Hcont'.
  eapply getRecipeFromAI_success; try eassumption.
  apply parse_stringify; [exact Hnf|].
  eapply JSON_parse_normal; exact Hparse.
Qed.

Lemma single_getRecipeFromAI_total openai (recipeName : jsstring) :
  exists v, single_getRecipeFromAI openai recipeName = Returns v.
Proof.
  unfold single_getRecipeFromAI.
  destruct (chat_completions_create openai (single_recipe_request recipeName))
    as [completion|e]; cbn [bind try_catch]; eauto.
  destruct (choices completion) as [|choice rest]; cbn [try_catch]; eauto.
  destruct (finish_reason choice === lit "length"); cbn [try_catch]; eauto.
  destruct (truthy (refusal (message choice))); cbn [try_catch]; eauto.
  destruct (content (message choice)) as [[|d text]|];
    cbn [try_catch]; eauto.
  destruct (JSON_parse (d :: text)); cbn [try_catch]; eauto.
Qed.

Lemma single_fetch_as_handler (request : Request) (env : Env) client openai :
  new_client env = Returns client ->
  (forall foodName,
      chat_completions_create openai (recipe_request foodName)
      = chat_completions_create client (single_recipe_request foodName)) ->
  single_fetch request env
  = getRecipeFromAI openai (searchParams_get (url request) (lit "foodName")).
Proof.
  intros Hclient Hsame; unfold single_fetch; rewrite Hclient; cbn [bind].
  destruct (searchParams_get (url request) (lit "foodName"))
    as [[|c name]|]; try reflexivity.
  cbn [getRecipeFromAI]; unfold single_getRecipeFromAI.
  rewrite Hsame.
  destruct (chat_completions_create client
              (single_recipe_request (c :: name)))
    as [completion|e]; cbn [bind try_catch]; try reflexivity.
  destruct (choices completion) as [|choice rest]; cbn [bind try_catch];
    try reflexivity.
  destruct (finish_reason choice === lit "length"); cbn [bind try_catch];
    try reflexivity.
  destruct (truthy (refusal (message choice))); cbn [bind try_catch];
    try reflexivity.
  destruct (content (message choice)) as [[|d text]|];
    cbn [bind try_catch]; try reflexivity.
  destruct (JSON_parse (d :: text)); reflexivity.
Qed.

(** The single-endpoint worker builds its client first, outside every
    [try]: what the constructor throws, the worker throws. *)
Lemma single_fetch_throws (request : Request) (env : Env) e :
  new_client env = Throws e -> single_fetch request env = Throws e.
Proof. intros H; unfold single_fetch; rewrite H; reflexivity. Qed.

(** Property X8.  The two variants of the worker read a completion alike:
    once the single-endpoint worker has built its client, and when both
    clients get the same answer from the completion service, the response
    of the single-endpoint worker is the response of the routed worker's
    handler, status, headers and body. *)
Theorem X8_variants_agree (request : Request) (env : Env) client openai :
  new_client env = Returns client ->
  (forall foodName,
      chat_completions_create openai (recipe_request foodName)
      = chat_completions_create client (single_recipe_request foodName)) ->
  single_fetch request env
  = getRecipeFromAI openai (searchParams_get (url request) (lit "foodName")).
Proof. apply single_fetch_as_handler. Qed.

(** Property X9.  On /getRecipe, once the client is built, the routed worker
    and the single-endpoint worker return the same body when the completion
    service answers both alike; what the router changes is the status,
    always 200, and the headers.  When the constructor of the client
    throws, both workers throw what it threw. *)
Theorem X9_routed_and_single_bodies (request : Request) (env : Env) :
  pathname (url request) = lit "/getRecipe" ->
  (forall openai,
      new_client env = Returns openai ->
      (forall foodName,
          chat_completions_create openai (recipe_request foodName)
          = chat_completions_create openai (single_recipe_request foodName)) ->
      exists routed single,
        fetch request env = Returns routed
        /\ single_fetch request env = Returns single
        /\ body routed = body single
        /\ status routed = 200
        /\ status single
           = (if truthy (searchParams_get (url request) (lit "foodName"))
              then 200 else 400)
        /\ headers_get (headers single) (lit "Content-Type")
           = Some (lit "application/json")
        /\ headers_get (headers routed) (lit "Content-Type") = None)
  /\ (forall e,
         new_client env = Throws e ->
         fetch request env = Throws e /\ single_fetch request env = Throws e).
Proof.
  intros Hpath; split.
  - intros openai Hclient Hsame.
    rewrite (fetch_getRecipe _ _ _ Hpath Hclient),
      (single_fetch_as_handler request env openai openai Hclient Hsame).
    destruct (getRecipeFromAI_total openai
                (searchParams_get (url request) (lit "foodName")))
      as [handled Hh].
    destruct (getRecipeFromAI_status _ _ _ Hh) as [Hstatus Hheaders].
    rewrite Hh; cbn [bind].
    exists (rewrap handled), handled; repeat split; try assumption.
    rewrite Hheaders; reflexivity.
  - intros e Hclient; split;
      [apply fetch_getRecipe_throws | apply single_fetch_throws]; assumption.
Qed.

(** Property X10.  The single-endpoint worker builds its client before it
    looks at the request.  Once the client is built it answers every path
    and method: it never returns 404, its status is 400 exactly when
    foodName is missing or empty and 200 otherwise, and its only header is
    the JSON content type (no cross-origin header).  When the constructor
    throws, the worker throws, a missing foodName included.  In both cases
    the outcome depends on the query alone. *)
Theorem X10_single_fetch_behaviour (request : Request) (env : Env) :
  (forall openai,
      new_client env = Returns openai ->
      exists r,
        single_fetch request env = Returns r
        /\ status r
           = (if truthy (searchParams_get (url request) (lit "foodName"))
              then 200 else 400)
        /\ headers r = [(lit "content-type", lit "application/json")])
  /\ (forall e, new_client env = Throws e -> single_fetch request env = Throws e)
  /\ forall request',
      searchParams (url request') = searchParams (url request) ->
      single_fetch request' env = single_fetch request env.
Proof.
  split; [|split].
  - intros openai Hclient; unfold single_fetch; rewrite Hclient; cbn [bind].
    destruct (searchParams_get (url request) (lit "foodName"))
      as [[|c name]|]; cbn [truthy];
      try (eexists; repeat split; fail).
    destruct (single_getRecipeFromAI_total openai (c :: name)) as [v Hv].
    rewrite Hv; cbn [bind]. eexists; repeat split.
  - intros e; apply single_fetch_throws.
  - intros request' Hq; unfold single_fetch, searchParams_get.
    rewrite Hq. reflexivity.
Qed.

(** ** [encodeURIComponent] *)








Lemma unreserved_ascii (c : code_unit) : is_unreserved c = true -> c < 128.
Proof.
  unfold is_unreserved, is_digit; intros H.
  apply orb_prop in H as [H|H]; [apply orb_prop in H as [H|H];
                                 [apply orb_prop in H as [H|H]|]|].
  - apply andb_prop in H as [_ H]; apply N.leb_le in H; lia.
  - apply andb_prop in H as [_ H]; apply N.leb_le in H; lia.
  - apply andb_prop in H as [_ H]; apply N.leb_le in H; lia.
  - apply existsb_exists in H as [x [Hin Hx]]. apply N.eqb_eq in Hx; subst x.
    vm_compute in Hin.
    repeat (destruct Hin as [<-|Hin]; [lia|]). destruct Hin.
Qed.

Lemma unreserved_not_surrogate (c : code_unit) :
  is_unreserved c = true ->
  is_high_surrogate c = false /\ is_low_surrogate c = false.
Proof.
  intros H; apply unreserved_ascii in H.
  unfold is_high_surrogate, is_low_surrogate; split;
    apply andb_false_intro1; apply N.leb_gt; lia.
Qed.

Lemma surrogates_disjoint (c : code_unit) :
  is_high_surrogate c = true -> is_low_surrogate c = false.
Proof.
  unfold is_high_surrogate, is_low_surrogate; intros H.
  apply andb_prop in H as [_ H]; apply N.leb_le in H.
  apply andb_false_intro1; apply N.leb_gt; lia.
Qed.

Lemma encode_well_formed (s : jsstring) :
  match encode s with
  | Some _ => well_formed s = true
  | None => well_formed s = false
  end.
Proof.
  enough (H : match encode s with
              | Some _ => well_formed s = true
              | None => well_formed s = false
              end
              /\ forall c,
                  match encode (c :: s) with
                  | Some _ => well_formed (c :: s) = true
                  | None => well_formed (c :: s) = false
                  end)
    by apply H.
  induction s as [|d s [IHs IHds]].
  - split; [reflexivity|]. intros c; cbn [encode well_formed].
    destruct (is_unreserved c) eqn:Hu.
    { destruct (unreserved_not_surrogate c Hu) as [-> ->]; reflexivity. }
    destruct (is_low_surrogate c) eqn:Hlow.
    { destruct (is_high_surrogate c); reflexivity. }
    destruct (is_high_surrogate c); reflexivity.
  - split; [exact (IHds d)|]. intros c.
    change (encode (c :: d :: s)) with
      (if is_unreserved c then option_map (cons c) (encode (d :: s))
       else if is_low_surrogate c then None
       else if is_high_surrogate c then
         if is_low_surrogate d then
           option_map
             (app (percent_encode (65536 + (c - 55296) * 1024 + (d - 56320))))
             (encode s)
         else None
       else option_map (app (percent_encode c)) (encode (d :: s))).
    change (well_formed (c :: d :: s)) with
      (if is_high_surrogate c then is_low_surrogate d && well_formed s
       else negb (is_low_surrogate c) && well_formed (d :: s)).
    specialize (IHds d).
    destruct (is_unreserved c) eqn:Hu.
    { destruct (unreserved_not_surrogate c Hu) as [-> ->]; cbn [negb andb].
      destruct (encode (d :: s)); exact IHds. }
    destruct (is_low_surrogate c) eqn:Hlow.
    { destruct (is_high_surrogate c) eqn:Hhigh; [|reflexivity].
      rewrite (surrogates_disjoint c Hhigh) in Hlow; discriminate. }
    destruct (is_high_surrogate c).
    + destruct (is_low_surrogate d); [|reflexivity]. cbn [andb].
      destruct (encode s); exact IHs.
    + cbn [negb andb]. destruct (encode (d :: s)); exact IHds.
Qed.

(** Property X12. [encodeURIComponent] throws exactly on the strings in
    which a surrogate stands alone. For such a query the handler makes no
    request: whatever the services are, it answers with the error body that
    carries the URIError's message. *)
Theorem X12_lone_surrogate_query (foodOrIngName : jsstring) :
  (well_formed foodOrIngName = true
   <-> exists query, encodeURIComponent foodOrIngName = Returns query)
  /\ (foodOrIngName <> [] ->
      well_formed foodOrIngName = false ->
      forall env,
        getImageFromWeb (Some foodOrIngName) env
        = Returns (error_response (ThrownError uriErrorMessage))).
Proof.
  pose proof (encode_well_formed foodOrIngName) as H.
  unfold encodeURIComponent. split; [split|].
  - intros Hwf; destruct (encode foodOrIngName) as [e|]; [eauto|congruence].
  - intros [query Hq]; destruct (encode foodOrIngName); [exact H|discriminate].
  - intros Hne Hwf env.
    apply getImageFromWeb_failure; [exact Hne|].
    apply image_encode_throws. unfold encodeURIComponent.
    destruct (encode foodOrIngName); [congruence | reflexivity].
Qed.

(** ** The schema constants *)

Lemma has_key_obj_get {V} (k : jsstring) (o : props V) :
  has_key k o = true -> exists v, obj_get k o = Some v /\ In (k, v) o.
Proof.
  induction o as [|[k' v'] o IH]; cbn [has_key existsb obj_get fst];
    [discriminate|].
  destruct (str_eqb_spec k k') as [->|Hk].
  - intros _; exists v'; split; [reflexivity | left; reflexivity].
  - intros H; destruct (IH H) as (v & Hget & Hin).
    exists v; split; [exact Hget | right; exact Hin].
Qed.

Lemma conforms_object (s v : JValue) :
  schema_type s = lit "object" -> conforms s v = true ->
  exists kvs, v = JObject kvs.
Proof.
  intros Ht; destruct v; cbn [conforms]; rewrite ?Ht; try discriminate.
  eauto.
Qed.

Lemma conforms_string (s v : JValue) :
  schema_type s = lit "string" -> conforms s v = true ->
  exists t, v = JString t.
Proof.
  intros Ht; destruct v; cbn [conforms]; rewrite ?Ht; try discriminate.
  eauto.
Qed.

Lemma conforms_array (s item v : JValue) :
  schema_type s = lit "array" ->
  member (lit "items") s = Some item ->
  conforms s v = true ->
  exists vs, v = JArray vs /\ Forall (fun x => conforms item x = true) vs.
Proof.
  intros Ht Hitem; destruct v; cbn [conforms]; rewrite ?Ht; try discriminate.
  rewrite Hitem, str_eqb_refl; cbn [andb]; intros H.
  eexists; split; [reflexivity|].
  apply Forall_forall; rewrite forallb_forall in H; exact H.
Qed.

Lemma conforms_required (s : JValue) kvs rs (k : jsstring) :
  conforms s (JObject kvs) = true ->
  member (lit "required") s = Some (JArray rs) ->
  In (JString k) rs ->
  has_key k kvs = true.
Proof.
  cbn [conforms]; intros H Hreq Hin.
  apply andb_prop in H as [H _]; apply andb_prop in H as [_ H].
  rewrite Hreq, forallb_forall in H. exact (H _ Hin).
Qed.

Lemma conforms_closed (s : JValue) kvs ps (k : jsstring) (x : JValue) :
  conforms s (JObject kvs) = true ->
  member (lit "properties") s = Some (JObject ps) ->
  member (lit "additionalProperties") s = Some (JBool false) ->
  In (k, x) kvs ->
  exists p, obj_get k ps = Some p /\ conforms p x = true.
Proof.
  cbn [conforms]; intros H Hps Hadd Hin.
  apply andb_prop in H as [_ H].
  rewrite Hps, Hadd, forallb_forall in H.
  specialize (H _ Hin); cbn [fst snd] in H.
  destruct (obj_get k ps) as [p|]; [eauto | discriminate].
Qed.

(** A required property of a closed object schema is present and conforms
    to its own schema. *)
Lemma conforms_field (s : JValue) kvs rs ps (k : jsstring) :
  conforms s (JObject kvs) = true ->
  member (lit "required") s = Some (JArray rs) ->
  member (lit "properties") s = Some (JObject ps) ->
  member (lit "additionalProperties") s = Some (JBool false) ->
  In (JString k) rs ->
  exists x p,
    obj_get k kvs = Some x /\ obj_get k ps = Some p /\ conforms p x = true.
Proof.
  intros H Hreq Hps Hadd Hin.
  destruct (has_key_obj_get k kvs (conforms_required _ _ _ _ H Hreq Hin))
    as (x & Hget & Hx).
  destruct (conforms_closed _ _ _ _ _ H Hps Hadd Hx) as (p & Hp & Hc).
  eauto.
Qed.

Ltac in_list := first [left; reflexivity | right; in_list].

Lemma traverse_Forall {A B} (f : A -> option B) (l : list A) :
  Forall (fun x => exists y, f x = Some y) l ->
  exists ys, traverse f l = Some ys.
Proof.
  induction 1 as [|x l [y Hy] Hl [ys IH]]; cbn [traverse]; [eauto|].
  rewrite Hy, IH; eauto.
Qed.

Lemma conforms_ingredient (v : JValue) :
  conforms ingredient_schema v = true ->
  exists i, ingredient_of_json v = Some i.
Proof.
  intros H.
  destruct (conforms_object ingredient_schema v eq_refl H) as [kvs ->].
  destruct (conforms_field ingredient_schema kvs
              (required_keys ingredient_schema)
              (properties_of ingredient_schema) (lit "name")
              H eq_refl eq_refl eq_refl ltac:(in_list))
    as (x1 & p1 & Hx1 & Hp1 & Hc1).
  destruct (conforms_field ingredient_schema kvs
              (required_keys ingredient_schema)
              (properties_of ingredient_schema) (lit "amount")
              H eq_refl eq_refl eq_refl ltac:(in_list))
    as (x2 & p2 & Hx2 & Hp2 & Hc2).
  destruct (conforms_field ingredient_schema kvs
              (required_keys ingredient_schema)
              (properties_of ingredient_schema) (lit "description")
              H eq_refl eq_refl eq_refl ltac:(in_list))
    as (x3 & p3 & Hx3 & Hp3 & Hc3).
  vm_compute in Hp1, Hp2, Hp3.
  injection Hp1 as <-; injection Hp2 as <-; injection Hp3 as <-.
  apply conforms_string in Hc1 as [t1 ->]; [|reflexivity].
  apply conforms_string in Hc2 as [t2 ->]; [|reflexivity].
  apply conforms_string in Hc3 as [t3 ->]; [|reflexivity].
  unfold ingredient_of_json, string_member; cbn [member].
  rewrite Hx1, Hx2, Hx3. cbn [string_of_json]. eauto.
Qed.

Lemma obj_get_key {V} (k : jsstring) (o : props V) v :
  obj_get k o = Some v -> In k (map fst o).
Proof.
  induction o as [|[k' v'] o IH]; cbn [obj_get map fst In]; [discriminate|].
  destruct (str_eqb_spec k k') as [->|Hk]; [left; reflexivity|].
  intros H; right; exact (IH H).
Qed.

(** Property X13. The schema constant describes the Recipe shape: a value
    that conforms to it is an object with no member but name, description,
    ingredients and instructions, and it decodes to a Recipe, whatever the
    order of its members. *)
Theorem X13_conformant_is_recipe (v : JValue) :
  conforms recipe_schema v = true ->
  exists kvs r,
    v = JObject kvs
    /\ recipe_of_json v = Some r
    /\ forall k x,
        In (k, x) kvs ->
        In k [lit "name"; lit "description"; lit "ingredients";
              lit "instructions"].
Proof.
  intros H.
  destruct (conforms_object recipe_schema v eq_refl H) as [kvs ->].
  destruct (conforms_field recipe_schema kvs (required_keys recipe_schema)
              (properties_of recipe_schema) (lit "name")
              H eq_refl eq_refl eq_refl ltac:(in_list))
    as (x1 & p1 & Hx1 & Hp1 & Hc1).
  destruct (conforms_field recipe_schema kvs (required_keys recipe_schema)
              (properties_of recipe_schema) (lit "description")
              H eq_refl eq_refl eq_refl ltac:(in_list))
    as (x2 & p2 & Hx2 & Hp2 & Hc2).
  destruct (conforms_field recipe_schema kvs (required_keys recipe_schema)
              (properties_of recipe_schema) (lit "ingredients")
              H eq_refl eq_refl eq_refl ltac:(in_list))
    as (x3 & p3 & Hx3 & Hp3 & Hc3).
  destruct (conforms_field recipe_schema kvs (required_keys recipe_schema)
              (properties_of recipe_schema) (lit "instructions")
              H eq_refl eq_refl eq_refl ltac:(in_list))
    as (x4 & p4 & Hx4 & Hp4 & Hc4).
  assert (Hp3' : p3 = property_schema "ingredients" recipe_schema)
    by (unfold property_schema; rewrite Hp3; reflexivity).
  assert (Hp4' : p4 = property_schema "instructions" recipe_schema)
    by (unfold property_schema; rewrite Hp4; reflexivity).
  vm_compute in Hp1, Hp2.
  injection Hp1 as <-; injection Hp2 as <-; subst p3 p4.
  apply conforms_string in Hc1 as [n ->]; [|reflexivity].
  apply conforms_string in Hc2 as [d ->]; [|reflexivity].
  apply (conforms_array _ ingredient_schema) in Hc3
    as (xs & -> & Hxs); [|reflexivity..].
  apply (conforms_array _
           (items_schema (property_schema "instructions" recipe_schema)))
    in Hc4 as (ss & -> & Hss); [|reflexivity..].
  destruct (traverse_Forall ingredient_of_json xs) as [ings Hings].
  { eapply Forall_impl; [|exact Hxs]. exact conforms_ingredient. }
  destruct (traverse_Forall string_of_json ss) as [steps Hsteps].
  { eapply Forall_impl; [|exact Hss].
    intros a Ha; cbv beta in Ha.
    apply conforms_string in Ha as [t ->]; [|reflexivity].
    exists t; reflexivity. }
  exists kvs; eexists; split; [reflexivity|]; split.
  - unfold recipe_of_json, string_member; cbn [member].
    rewrite Hx1, Hx2, Hx3, Hx4; cbn [string_of_json].
    rewrite Hings, Hsteps. reflexivity.
  - intros k x Hin.
    destruct (conforms_closed recipe_schema kvs (properties_of recipe_schema)
                k x H eq_refl eq_refl Hin) as (p & Hp & _).
    exact (obj_get_key _ _ _ Hp).
Qed.

(** Property X14. The two variants ask for different shapes: a value that
    conforms to the routed worker's schema never conforms to the single-
    endpoint worker's, which requires imgUrl, a member the former does not
    admit. *)
Theorem X14_schemas_exclude_each_other (v : JValue) :
  conforms recipe_schema v = true ->
  conforms single_recipe_schema v = false.
Proof.
  intros H; destruct (conforms single_recipe_schema v) eqn:Hsingle;
    [exfalso | reflexivity].
  destruct (conforms_object recipe_schema v eq_refl H) as [kvs ->].
  pose proof (conforms_required single_recipe_schema kvs
                (required_keys single_recipe_schema) (lit "imgUrl")
                Hsingle eq_refl ltac:(in_list)) as Hkey.
  destruct (has_key_obj_get _ _ Hkey) as (x & _ & Hin).
  destruct (conforms_closed recipe_schema kvs (properties_of recipe_schema)
              _ x H eq_refl eq_refl Hin) as (p & Hp & _).
  vm_compute in Hp. discriminate Hp.
Qed.

End Verification.

(** * The claims at sample inputs *)

Section Witnesses.
#[local] Existing Instance sample_engine.
Local Open Scope string_scope.

Lemma C1_missing_foodName_routed_witness :
  pathname (url (GET "/getRecipe" [])) = lit "/getRecipe"
  /\ new_client (services := services_with found) sample_env
     = Returns (client_answering empty_choice)
  /\ truthy (searchParams_get (url (GET "/getRecipe" [])) (lit "foodName"))
     = false
  /\ exists routed,
      fetch (services := services_with found) (GET "/getRecipe" []) sample_env
        = Returns routed
      /\ status routed = 200.
Proof.
  split; [reflexivity|]; split; [reflexivity|]; split; [reflexivity|].
  destruct (C1_missing_foodName_routed (services := services_with found)
              (GET "/getRecipe" []) sample_env (client_answering empty_choice)
              eq_refl eq_refl eq_refl)
    as (handled & routed & _ & _ & _ & Hfetch & _ & Hstatus).
  exists routed; split; assumption.
Defined.

Lemma C9_missing_foodOrIngName_routed_witness :
  pathname (url (GET "/getImage" [])) = lit "/getImage"
  /\ truthy (searchParams_get (url (GET "/getImage" [])) (lit "foodOrIngName"))
     = false
  /\ exists routed,
      fetch (services := services_with found) (GET "/getImage" []) sample_env
        = Returns routed
      /\ status routed = 200.
Proof.
  split; [reflexivity|]; split; [reflexivity|].
  destruct (C9_missing_foodOrIngName_routed (services := services_with found)
              (GET "/getImage" []) sample_env eq_refl eq_refl)
    as (handled & routed & _ & _ & _ & Hfetch & _ & Hstatus).
  exists routed; split; assumption.
Defined.

Lemma C10_routed_status_200_witness :
  pathname (url (GET "/getRecipe" [])) = lit "/getRecipe"
  /\ new_client (services := services_with unavailable) sample_env
     = Returns (client_answering empty_choice)
  /\ (exists routed,
        fetch (services := services_with unavailable) (GET "/getRecipe" [])
          sample_env = Returns routed
        /\ status routed = 200)
  /\ new_client (services := services_with unavailable) tokenless_env
     = Throws (ThrownError (lit "Missing credentials"))
  /\ fetch (services := services_with unavailable) (GET "/getRecipe" [])
       tokenless_env
     = Throws (ThrownError (lit "Missing credentials")).
Proof.
  split; [reflexivity|]; split; [reflexivity|]; split; [|split].
  - destruct (proj1 (proj2
                (C10_routed_status_200 (services := services_with unavailable)
                   (GET "/getRecipe" []) sample_env (or_introl eq_refl)))
                (client_answering empty_choice) (fun _ => eq_refl))
      as (handled & routed & _ & Hfetch & _ & _ & Hstatus & _).
    exists routed; split; assumption.
  - reflexivity.
  - apply (proj2 (proj2
             (C10_routed_status_200 (services := services_with unavailable)
                (GET "/getRecipe" []) tokenless_env (or_introl eq_refl))));
      reflexivity.
Defined.

Lemma C8_routed_headers_witness :
  new_client (services := services_with found) sample_env
  = Returns (client_answering empty_choice)
  /\ exists routed,
      fetch (services := services_with found) (GET "/getRecipe" []) sample_env
        = Returns routed
      /\ body routed = qlit "{'error':'foodName parameter is required'}"
      /\ headers_get (headers routed) (lit "Content-Type") = None.
Proof.
  split; [reflexivity|].
  destruct (C8_routed_headers (services := services_with found)
              (GET "/getRecipe" []) sample_env
              (fun _ => ex_intro _ (client_answering empty_choice) eq_refl))
    as (routed & Hfetch & _ & Htype & _).
  exists routed; split; [exact Hfetch|]; split; [|exact Htype].
  rewrite (eq_refl : fetch (services := services_with found)
                       (GET "/getRecipe" []) sample_env
                     = Returns (rewrap
                         {| status := 400;
                            headers :=
                              [(lit "content-type", lit "application/json")];
                            body :=
                              qlit "{'error':'foodName parameter is required'}"
                         |})) in Hfetch.
  injection Hfetch as <-. reflexivity.
Defined.

Lemma C3_truncated_completion_witness :
  lit "lasagna" <> []
  /\ finish_reason truncated_choice = lit "length"
  /\ exists r,
      getRecipeFromAI (client_answering truncated_choice)
        (Some (lit "lasagna")) = Returns r
      /\ JSON_parse (body r)
         = Returns
             (JObject [(lit "error", JString (lit "Incomplete response"))]).
Proof.
  split; [discriminate|]; split; [reflexivity|].
  destruct (C3_truncated_completion (client_answering truncated_choice)
              (lit "lasagna") {| choices := [truncated_choice] |}
              truncated_choice [] ltac:(discriminate)
              eq_refl eq_refl eq_refl)
    as (r & Hr & Hparse & _).
  exists r; split; assumption.
Defined.

Lemma C7_refused_completion_witness :
  lit "lasagna" <> []
  /\ finish_reason refused_choice <> lit "length"
  /\ truthy (refusal (message refused_choice)) = true
  /\ exists r,
      getRecipeFromAI (client_answering refused_choice)
        (Some (lit "lasagna")) = Returns r
      /\ JSON_parse (body r)
         = Returns
             (JObject
                [(lit "error",
                  JString (lit "Model refused to provide a recipe"))]).
Proof.
  split; [discriminate|]; split; [discriminate|].
  split; [reflexivity|].
  destruct (C7_refused_completion (client_answering refused_choice)
              (lit "lasagna") {| choices := [refused_choice] |}
              refused_choice []
              ltac:(discriminate) eq_refl eq_refl ltac:(discriminate) eq_refl)
    as (r & Hr & Hparse & _).
  exists r; split; assumption.
Defined.

Lemma C4_recipe_round_trip_witness :
  JSON_parse sample_recipe_text = Returns (json_of_recipe sample_recipe)
  /\ conforms recipe_schema (json_of_recipe sample_recipe) = true
  /\ exists r,
      getRecipeFromAI (client_answering recipe_choice)
        (Some (lit "lasagna")) = Returns r
      /\ JSON_parse (body r) = Returns (json_of_recipe sample_recipe).
Proof.
  split; [reflexivity|]; split; [reflexivity|].
  destruct (proj1 C4_recipe_round_trip
              (client_answering recipe_choice)
              (lit "lasagna") {| choices := [recipe_choice] |} recipe_choice
              [] sample_recipe_text (json_of_recipe sample_recipe)
              ltac:(discriminate) eq_refl eq_refl ltac:(discriminate)
              eq_refl eq_refl eq_refl eq_refl)
    as (r & Hr & _ & _ & Hparse).
  exists r; split; assumption.
Defined.


Lemma C6_first_image_witness :
  pathname (url (GET "/getImage" [("foodOrIngName", "tomato")]))
    = lit "/getImage"
  /\ searchParams_get (url (GET "/getImage" [("foodOrIngName", "tomato")]))
       (lit "foodOrIngName") = Some (lit "tomato")
  /\ ok found = true
  /\ exists routed,
      fetch (services := services_with found)
        (GET "/getImage" [("foodOrIngName", "tomato")]) sample_env
        = Returns routed
      /\ JSON_parse (body routed)
         = Returns (JObject [(lit "url", JString (lit "http://a"));
                             (lit "thumb", JString (lit "http://b"))])
      /\ status routed = 200.
Proof.
  split; [reflexivity|]; split; [reflexivity|]; split; [reflexivity|].
  destruct (C6_first_image (services := services_with found)
              (GET "/getImage" [("foodOrIngName", "tomato")]) (lit "tomato")
              sample_env (lit "tomato") found
              {| items := Some [sample_item] |} sample_item []
              eq_refl eq_refl ltac:(discriminate) eq_refl eq_refl eq_refl
              eq_refl eq_refl)
    as (handled & routed & _ & _ & Hparse & Hfetch & Hbody & Hstatus).
  exists routed; rewrite Hbody; repeat split; assumption.
Defined.

Lemma C2_failures_become_error_bodies_witness :
  lit "lasagna" <> []
  /\ chat_completions_create failing_client (recipe_request (lit "lasagna"))
     = Throws (ThrownValue (JString (lit "timeout")))
  /\ getRecipeFromAI failing_client (Some (lit "lasagna"))
     = Returns (error_response (ThrownValue (JString (lit "timeout"))))
  /\ JSON_parse
       (body (error_response (ThrownValue (JString (lit "timeout")))))
     = Returns
         (JObject [(lit "error", JString (lit "An unknown error occurred"))]).
Proof.
  split; [discriminate|]; split; [reflexivity|].
  destruct (C2_failures_become_error_bodies
              (services := services_with found))
    as (_ & _ & Hrecipe & _ & _ & _ & Hparse & _ & _).
  split.
  - apply Hrecipe; [discriminate|].
    apply recipe_call_throws; reflexivity.
  - apply Hparse.
Defined.

Lemma X1_unknown_path_not_found_witness :
  pathname (url (GET "/getrecipe" [("foodName", "lasagna")]))
    <> lit "/getRecipe"
  /\ pathname (url (GET "/getrecipe" [("foodName", "lasagna")]))
     <> lit "/getImage"
  /\ exists r,
      fetch (services := services_with found)
        (GET "/getrecipe" [("foodName", "lasagna")]) sample_env = Returns r
      /\ status r = 404 /\ body r = lit "Not found".
Proof.
  split; [discriminate|]; split; [discriminate|].
  eexists; split.
  - apply (X1_unknown_path_not_found (services := services_with found)
             (GET "/getrecipe" [("foodName", "lasagna")]) sample_env);
      discriminate.
  - split; reflexivity.
Defined.

Lemma X3_empty_completion_witness :
  lit "lasagna" <> []
  /\ finish_reason empty_choice <> lit "length"
  /\ truthy (refusal (message empty_choice)) = false
  /\ truthy (content (message empty_choice)) = false
  /\ exists r,
      getRecipeFromAI (client_answering empty_choice) (Some (lit "lasagna"))
        = Returns r
      /\ JSON_parse (body r)
         = Returns
             (JObject [(lit "error", JString (lit "No response content"))]).
Proof.
  split; [discriminate|]; split; [discriminate|].
  split; [reflexivity|]; split; [reflexivity|].
  destruct (X3_empty_completion (client_answering empty_choice)
              (lit "lasagna") {| choices := [empty_choice] |} empty_choice []
              ltac:(discriminate) eq_refl eq_refl ltac:(discriminate)
              eq_refl eq_refl)
    as (r & Hr & _ & Hparse).
  exists r; split; assumption.
Defined.

Lemma X4_no_choice_witness :
  lit "lasagna" <> []
  /\ exists r,
      getRecipeFromAI choiceless_client (Some (lit "lasagna")) = Returns r
      /\ JSON_parse (body r)
         = Returns (JObject [(lit "error", JString typeErrorMessage)]).
Proof.
  split; [discriminate|].
  destruct (X4_no_choice choiceless_client (lit "lasagna")
              {| choices := [] |} ltac:(discriminate) eq_refl eq_refl)
    as (r & Hr & _ & Hparse).
  exists r; split; assumption.
Defined.

Lemma X5_unparsable_content_witness :
  lit "lasagna" <> []
  /\ finish_reason blank_choice <> lit "length"
  /\ truthy (refusal (message blank_choice)) = false
  /\ forallb is_ws (lit "  ") = true
  /\ exists r,
      getRecipeFromAI (client_answering blank_choice) (Some (lit "lasagna"))
        = Returns r
      /\ JSON_parse (body r)
         = Returns
             (JObject
                [(lit "error", JString (syntaxErrorMessage (lit "  ")))]).
Proof.
  split; [discriminate|]; split; [discriminate|].
  split; [reflexivity|]; split; [reflexivity|].
  destruct (X5_unparsable_content (client_answering blank_choice)
              (lit "lasagna") {| choices := [blank_choice] |} blank_choice []
              (lit "  ") ltac:(discriminate) eq_refl eq_refl
              ltac:(discriminate) eq_refl eq_refl ltac:(discriminate)
              (or_introl eq_refl))
    as (r & Hr & _ & Hparse).
  exists r; split; assumption.
Defined.

Lemma X6_content_passes_unvalidated_witness :
  JSON_parse other_text = Returns other_value
  /\ conforms recipe_schema other_value = false
  /\ exists r,
      getRecipeFromAI (client_answering other_choice) (Some (lit "lasagna"))
        = Returns r
      /\ status r = 200
      /\ body r = JSON_stringify 2 other_value.
Proof.
  split; [reflexivity|]; split; [reflexivity|].
  destruct (X6_content_passes_unvalidated (client_answering other_choice)
              (lit "lasagna") {| choices := [other_choice] |} other_choice []
              other_text other_value ltac:(discriminate) eq_refl eq_refl
              ltac:(discriminate) eq_refl eq_refl eq_refl)
    as (r & Hr & Hstatus & Hbody & _).
  exists r; repeat split; assumption.
Defined.

Lemma X7_reserialization_settles_witness :
  JSON_parse other_text = Returns other_value
  /\ getRecipeFromAI (client_answering other_choice) (Some (lit "lasagna"))
     = getRecipeFromAI (client_answering settled_choice) (Some (lit "soup")).
Proof.
  split; [reflexivity|].
  symmetry.
  apply (X7_reserialization_settles
           (client_answering other_choice) (client_answering settled_choice)
           (lit "lasagna") (lit "soup")
           {| choices := [other_choice] |} other_choice []
           {| choices := [settled_choice] |} settled_choice []
           other_text other_value
           {| status := 200;
              headers := [(lit "content-type", lit "application/json")];
              body := JSON_stringify 2 other_value |});
    try discriminate; try reflexivity.
  repeat constructor.
Defined.

Lemma X8_variants_agree_witness :
  new_client (services := services_with found) sample_env
  = Returns (client_answering empty_choice)
  /\ single_fetch (services := services_with found)
       (GET "/anything" [("foodName", "lasagna")]) sample_env
     = getRecipeFromAI (client_answering empty_choice) (Some (lit "lasagna")).
Proof.
  split; [reflexivity|].
  apply (X8_variants_agree (services := services_with found)
           (GET "/anything" [("foodName", "lasagna")]) sample_env
           (client_answering empty_choice) (client_answering empty_choice));
    [reflexivity|].
  intros foodName; reflexivity.
Defined.

Lemma X9_routed_and_single_bodies_witness :
  pathname (url (GET "/getRecipe" [])) = lit "/getRecipe"
  /\ new_client (services := services_with found) sample_env
     = Returns (client_answering empty_choice)
  /\ exists routed single,
      fetch (services := services_with found) (GET "/getRecipe" [])
        sample_env = Returns routed
      /\ single_fetch (services := services_with found) (GET "/getRecipe" [])
           sample_env = Returns single
      /\ body routed = body single
      /\ status routed = 200
      /\ status single = 400.
Proof.
  split; [reflexivity|]; split; [reflexivity|].
  destruct (proj1 (X9_routed_and_single_bodies
                     (services := services_with found)
                     (GET "/getRecipe" []) sample_env eq_refl)
              (client_answering empty_choice) eq_refl (fun _ => eq_refl))
    as (routed & single & Hr & Hs & Hbody & Hstatus & Hsingle & _).
  exists routed, single; repeat split; assumption.
Defined.

Lemma X10_single_fetch_behaviour_witness :
  new_client (services := services_with found) sample_env
  = Returns (client_answering empty_choice)
  /\ (exists r,
        single_fetch (services := services_with found) (GET "/anything" [])
          sample_env = Returns r
        /\ status r = 400)
  /\ new_client (services := services_with found) tokenless_env
     = Throws (ThrownError (lit "Missing credentials"))
  /\ single_fetch (services := services_with found) (GET "/anything" [])
       tokenless_env
     = Throws (ThrownError (lit "Missing credentials")).
Proof.
  split; [reflexivity|]; split; [|split].
  - destruct (proj1 (X10_single_fetch_behaviour
                       (services := services_with found)
                       (GET "/anything" []) sample_env)
                (client_answering empty_choice) eq_refl)
      as (r & Hr & Hstatus & _).
    exists r; split; assumption.
  - reflexivity.
  - apply (proj1 (proj2 (X10_single_fetch_behaviour
                           (services := services_with found)
                           (GET "/anything" []) tokenless_env))).
    reflexivity.
Defined.


Lemma X12_lone_surrogate_query_witness :
  lone_surrogate <> []
  /\ well_formed lone_surrogate = false
  /\ getImageFromWeb (services := services_with found) (Some lone_surrogate)
       sample_env
     = Returns (error_response (ThrownError uriErrorMessage)).
Proof.
  split; [discriminate|]; split; [reflexivity|].
  apply (proj2 (X12_lone_surrogate_query (services := services_with found)
                  lone_surrogate));
    [discriminate | reflexivity].
Defined.

Lemma X13_conformant_is_recipe_witness :
  conforms recipe_schema (json_of_recipe sample_recipe) = true
  /\ exists r, recipe_of_json (json_of_recipe sample_recipe) = Some r.
Proof.
  split; [reflexivity|].
  destruct (X13_conformant_is_recipe (json_of_recipe sample_recipe) eq_refl)
    as (kvs & r & _ & Hr & _).
  exists r; exact Hr.
Defined.

Lemma X14_schemas_exclude_each_other_witness :
  conforms recipe_schema (json_of_recipe sample_recipe) = true
  /\ conforms single_recipe_schema (json_of_recipe sample_recipe) = false.
Proof.
  split; [reflexivity|].
  apply (X14_schemas_exclude_each_other (json_of_recipe sample_recipe)).
  reflexivity.
Defined.

End Witnesses.
